(** * Tool calls of the Groq adapter: [mirascope/groq/tools.py]

    A shallow embedding of [GroqTool] (schema envelope, instantiation of a
    tool from a tool call of a chat completion) together with the parts of
    the Python runtime it runs on: JSON-shaped Python objects, insertion
    ordered dictionaries, exceptions, [json.loads] with the limits of the
    interpreter it runs into, and a store holding the tool call objects
    that instances keep a reference to. *)

From Stdlib Require Import String Ascii List ZArith NArith Bool Arith Lia.
Import ListNotations.

Local Open Scope string_scope.
Local Open Scope list_scope.
Local Open Scope nat_scope.

(** ** Python objects *)

(** Address of an object that has identity in the store. *)
Definition addr := nat.

(** The objects [json.loads] can build, plus references to stored objects.
    A [float] is kept as the literal it was read from; [str] is kept as
    its UTF-8 bytes. *)
Unset Elimination Schemes.
Inductive pyobj : Type :=
| PNone
| PBool (b : bool)
| PInt (z : Z)
| PFloat (literal : string)
| PStr (s : string)
| PList (items : list pyobj)
| PDict (entries : list (string * pyobj))
| PRef (a : addr).
Set Elimination Schemes.

(** Python's [dict]: an association list in insertion order, each key
    bound once. *)
Module Dict.
Section Ops.
Context {V : Type}.

Definition t := list (string * V).

Fixpoint get (k : string) (d : t) : option V :=
  match d with
  | [] => None
  | (k', v) :: rest => if String.eqb k k' then Some v else get k rest
  end.

(** [d[k] = v]: a bound key keeps its position, a new key goes last. *)
Fixpoint set (k : string) (v : V) (d : t) : t :=
  match d with
  | [] => [(k, v)]
  | (k', v') :: rest =>
      if String.eqb k k' then (k', v) :: rest else (k', v') :: set k v rest
  end.

Definition keys (d : t) : list string := map fst d.

Definition mem (k : string) (d : t) : bool :=
  match get k d with Some _ => true | None => false end.

(** [dict(pairs)] *)
Definition of_pairs (pairs : list (string * V)) : t :=
  fold_left (fun d kv => set (fst kv) (snd kv) d) pairs [].
End Ops.
Arguments t : clear implicits.

(** The same keys, each value through [f]. *)
Definition map_values {V W : Type} (f : V -> W) (d : t V) : t W :=
  map (fun kv => (fst kv, f (snd kv))) d.
End Dict.

(** ** [json.loads] *)

(** The decoder of the [json] module, on the bytes of the text: the
    grammar it accepts, [NaN], [Infinity] and [-Infinity] included, the
    object it builds, the message of each failure, and the two limits of
    the interpreter a text can run into: the depth of recursion and the
    digits of an [int]. *)
Module Json.

(** Outcome of a scanning step. [Failed] is a [JSONDecodeError] with its
    message; [TooDeep] is the [RecursionError] of a text nested deeper
    than the interpreter has room for; [TooLong] is the [ValueError] of
    an integer with more digits than [int] converts; [OutOfFuel] is shown
    unreachable below. *)
Inductive scan (A : Type) : Type :=
| Scanned (a : A)
| Failed (msg : string)
| TooDeep
| TooLong
| OutOfFuel.
Arguments Scanned {A} a.
Arguments Failed {A} msg.
Arguments TooDeep {A}.
Arguments TooLong {A}.
Arguments OutOfFuel {A}.

Definition chr (n : nat) : ascii := ascii_of_nat n.
Definition ord (c : ascii) : nat := nat_of_ascii c.

Definition QUOTE : ascii := chr 34.
Definition BACKSLASH : ascii := chr 92.

(** [WHITESPACE_STR = ' \t\n\r'] *)
Definition is_ws (c : ascii) : bool :=
  (ord c =? 32) || (ord c =? 9) || (ord c =? 10) || (ord c =? 13).

Fixpoint skip_ws (s : list ascii) : list ascii :=
  match s with
  | c :: r => if is_ws c then skip_ws r else s
  | [] => []
  end.

Definition is_digit (c : ascii) : bool := (48 <=? ord c) && (ord c <=? 57).

Definition hex_val (c : ascii) : option N :=
  let n := ord c in
  if (48 <=? n) && (n <=? 57) then Some (N.of_nat (n - 48))
  else if (65 <=? n) && (n <=? 70) then Some (N.of_nat (n - 55))
  else if (97 <=? n) && (n <=? 102) then Some (N.of_nat (n - 87))
  else None.

Definition hex4 (a b c d : ascii) : option N :=
  match hex_val a, hex_val b, hex_val c, hex_val d with
  | Some x, Some y, Some z, Some w => Some (((x * 16 + y) * 16 + z) * 16 + w)%N
  | _, _, _, _ => None
  end.

(** [chr(uni)] as UTF-8 bytes (lone surrogates get the three byte form). *)
Definition utf8 (u : N) : list ascii :=
  let b (n : N) := ascii_of_N n in
  if (u <? 128)%N then [b u]
  else if (u <? 2048)%N then [b (192 + u / 64); b (128 + u mod 64)]%N
  else if (u <? 65536)%N then
    [b (224 + u / 4096); b (128 + (u / 64) mod 64); b (128 + u mod 64)]%N
  else
    [b (240 + u / 262144); b (128 + (u / 4096) mod 64);
     b (128 + (u / 64) mod 64); b (128 + u mod 64)]%N.

Definition is_high_surrogate (u : N) : bool := (55296 <=? u)%N && (u <=? 56319)%N.
Definition is_low_surrogate (u : N) : bool := (56320 <=? u)%N && (u <=? 57343)%N.

(** The character a one letter escape stands for. *)
Definition escape_char (c : ascii) : option ascii :=
  let n := ord c in
  if n =? 34 then Some QUOTE
  else if n =? 92 then Some BACKSLASH
  else if n =? 47 then Some (chr 47)
  else if n =? 98 then Some (chr 8)
  else if n =? 102 then Some (chr 12)
  else if n =? 110 then Some (chr 10)
  else if n =? 114 then Some (chr 13)
  else if n =? 116 then Some (chr 9)
  else None.

(** [scanstring(s, end, strict=True)] of the C scanner, [s] starting
    after the opening quote; [acc] is the decoded text so far, reversed.
    The four digits of an escape must be followed by more text, or the
    escape is invalid; the low half of a surrogate pair is looked for
    only when text follows it. *)
Fixpoint scanstring (s : list ascii) (acc : list ascii)
  : scan (string * list ascii) :=
  match s with
  | [] => Failed "Unterminated string starting at"
  | c :: r =>
      if ord c =? 34 then Scanned (string_of_list_ascii (rev acc), r)
      else if ord c =? 92 then
        match r with
        | [] => Failed "Unterminated string starting at"
        | e :: r1 =>
            if ord e =? 117 then
              match r1 with
              | h1 :: h2 :: h3 :: h4 :: ((_ :: _) as r2) =>
                  match hex4 h1 h2 h3 h4 with
                  | None => Failed "Invalid \uXXXX escape"
                  | Some uni =>
                      let single := scanstring r2 (rev (utf8 uni) ++ acc) in
                      if is_high_surrogate uni then
                        match r2 with
                        | b :: u :: l1 :: l2 :: l3 :: l4 :: ((_ :: _) as r3) =>
                            if (ord b =? 92) && (ord u =? 117) then
                              match hex4 l1 l2 l3 l4 with
                              | None => Failed "Invalid \uXXXX escape"
                              | Some uni2 =>
                                  if is_low_surrogate uni2 then
                                    let joined :=
                                      (65536 + (uni - 55296) * 1024
                                       + (uni2 - 56320))%N in
                                    scanstring r3 (rev (utf8 joined) ++ acc)
                                  else single
                              end
                            else single
                        | _ => single
                        end
                      else single
                  end
              | _ => Failed "Invalid \uXXXX escape"
              end
            else
              match escape_char e with
              | Some ch => scanstring r1 (ch :: acc)
              | None => Failed "Invalid \escape"
              end
        end
      else if ord c <? 32 then Failed "Invalid control character at"
      else scanstring r (c :: acc)
  end.

(** The longest prefix of decimal digits and what follows it. *)
Fixpoint span_digits (s : list ascii) : list ascii * list ascii :=
  match s with
  | c :: r =>
      if is_digit c then let '(ds, rest) := span_digits r in (c :: ds, rest)
      else ([], s)
  | [] => ([], [])
  end.

(** A number, group by group: an optional minus sign and either a
    single 0 or a digit 1-9 followed by digits; optionally a dot and one
    or more digits; optionally e or E, an optional sign and one or more
    digits. Each matcher gives the text of its group and the rest. *)
Definition match_integer (s : list ascii) : option (list ascii * list ascii) :=
  let '(sign, s1) :=
    match s with
    | c :: r => if ord c =? 45 then ([c], r) else ([], s)
    | [] => ([], s)
    end in
  match s1 with
  | c :: r =>
      if ord c =? 48 then Some (sign ++ [c], r)
      else if is_digit c then
        let '(ds, rest) := span_digits s1 in Some (sign ++ ds, rest)
      else None
  | [] => None
  end.

Definition match_frac (s : list ascii) : option (list ascii * list ascii) :=
  match s with
  | c :: r =>
      if ord c =? 46 then
        match span_digits r with
        | ([], _) => None
        | (ds, rest) => Some (c :: ds, rest)
        end
      else None
  | [] => None
  end.

Definition match_exp (s : list ascii) : option (list ascii * list ascii) :=
  match s with
  | e :: r =>
      if (ord e =? 101) || (ord e =? 69) then
        let '(sign, r1) :=
          match r with
          | c :: r' => if (ord c =? 43) || (ord c =? 45) then ([c], r') else ([], r)
          | [] => ([], r)
          end in
        match span_digits r1 with
        | ([], _) => None
        | (ds, rest) => Some (e :: sign ++ ds, rest)
        end
      else None
  | [] => None
  end.

(** [int(integer)] for a match of the first group. *)
Definition parse_int (lexeme : list ascii) : Z :=
  let digits (ds : list ascii) : Z :=
    fold_left (fun n c => (n * 10 + Z.of_nat (ord c - 48))%Z) ds 0%Z in
  match lexeme with
  | c :: r => if ord c =? 45 then (- digits r)%Z else digits lexeme
  | [] => 0%Z
  end.

Definition match_number (s : list ascii) : option (pyobj * list ascii) :=
  match match_integer s with
  | None => None
  | Some (integer, r0) =>
      let '(frac, r1) :=
        match match_frac r0 with Some (f, r) => (f, r) | None => ([], r0) end in
      let '(exp, r2) :=
        match match_exp r1 with Some (e, r) => (e, r) | None => ([], r1) end in
      match frac, exp with
      | [], [] => Some (PInt (parse_int integer), r2)
      | _, _ => Some (PFloat (string_of_list_ascii (integer ++ frac ++ exp)), r2)
      end
  end.

(** The digits of the integer a text starts with, its sign not counted. *)
Definition int_digits (s : list ascii) : nat :=
  match match_integer s with
  | Some (integer, _) => length (filter is_digit integer)
  | None => 0
  end.

Definition is_int (obj : pyobj) : bool :=
  match obj with PInt _ => true | _ => false end.

(** [int(text)] refuses a text of more than [max_digits] digits, unless
    [max_digits] is 0, which turns the limit off. *)
Definition too_long (max_digits digits : nat) : bool :=
  (0 <? max_digits) && (max_digits <? digits).

(** [string[idx:idx + len(word)] == word], and the input after it. *)
Fixpoint after_word (word s : list ascii) : option (list ascii) :=
  match word, s with
  | [], _ => Some s
  | w :: word', c :: r => if Ascii.eqb w c then after_word word' r else None
  | _ :: _, [] => None
  end.

Definition literal (word : string) (s : list ascii) : option (list ascii) :=
  after_word (list_ascii_of_string word) s.

(** What [scan_once] does with a text that starts none of a string, an
    object and an array: a constant or a number, or no value at all. An
    integer of more than [max_digits] digits is the [ValueError] of
    [int]. *)
Definition scan_atom (max_digits : nat) (s : list ascii)
  : scan (pyobj * list ascii) :=
  match literal "null" s, literal "true" s, literal "false" s with
  | Some rest, _, _ => Scanned (PNone, rest)
  | None, Some rest, _ => Scanned (PBool true, rest)
  | None, None, Some rest => Scanned (PBool false, rest)
  | None, None, None =>
      match match_number s with
      | Some res =>
          if is_int (fst res) && too_long max_digits (int_digits s)
          then TooLong
          else Scanned res
      | None =>
          match literal "NaN" s, literal "Infinity" s, literal "-Infinity" s with
          | Some rest, _, _ => Scanned (PFloat "NaN", rest)
          | None, Some rest, _ => Scanned (PFloat "Infinity", rest)
          | None, None, Some rest => Scanned (PFloat "-Infinity", rest)
          | None, None, None => Failed "Expecting value"
          end
      end
  end.

(** The limits of the interpreter the scanner runs in: [frames] is the
    number of calls it takes to build a [JSONDecodeError], [max_digits]
    the limit on the digits of an [int]. *)
Section Scanner.
Variables frames max_digits : nat.

(** [raise_errmsg] of the C scanner: it calls [JSONDecodeError], which
    takes [frames] calls one inside the other, and is a [RecursionError]
    where [depth], the room left for calls, is less. *)
Definition errmsg {A} (depth : nat) (msg : string) : scan A :=
  if depth <? frames then TooDeep else Failed msg.

(** [scan_once] of the C scanner, with [JSONArray] and [JSONObject] as
    the loops over the elements of an array and the members of an
    object. [depth] is the number of arrays and objects the scanner may
    still enter, one inside the other. A value that is missing is a
    [StopIteration], made a [JSONDecodeError] by the decoder once the
    scanner is left, so it takes no room. *)
Fixpoint scan_once (fuel depth : nat) (s : list ascii)
  : scan (pyobj * list ascii) :=
  match fuel with
  | O => OutOfFuel
  | S fuel =>
      match s with
      | [] => Failed "Expecting value"
      | c :: r =>
          if ord c =? 34 then
            match scanstring r [] with
            | Scanned (str, rest) => Scanned (PStr str, rest)
            | Failed msg => errmsg depth msg
            | TooDeep => TooDeep
            | TooLong => TooLong
            | OutOfFuel => OutOfFuel
            end
          else if ord c =? 123 then
            match depth with
            | O => TooDeep
            | S depth =>
                match skip_ws r with
                | c1 :: r1 =>
                    if ord c1 =? 125 then Scanned (PDict [], r1)
                    else if ord c1 =? 34 then JSONObject fuel depth r1 []
                    else
                      errmsg depth "Expecting property name enclosed in double quotes"
                | [] =>
                    errmsg depth "Expecting property name enclosed in double quotes"
                end
            end
          else if ord c =? 91 then
            match depth with
            | O => TooDeep
            | S depth =>
                match skip_ws r with
                | c1 :: r1 =>
                    if ord c1 =? 93 then Scanned (PList [], r1)
                    else JSONArray fuel depth (c1 :: r1) []
                | [] => JSONArray fuel depth [] []
                end
            end
          else
            scan_atom max_digits s
      end
  end

(** the loop of [JSONArray]: [s] is at an element; [values] reversed *)
with JSONArray (fuel depth : nat) (s : list ascii) (values : list pyobj)
  : scan (pyobj * list ascii) :=
  match fuel with
  | O => OutOfFuel
  | S fuel =>
      match scan_once fuel depth s with
      | Scanned (value, rest) =>
          match skip_ws rest with
          | c :: r =>
              if ord c =? 93 then Scanned (PList (rev (value :: values)), r)
              else if ord c =? 44 then
                JSONArray fuel depth (skip_ws r) (value :: values)
              else errmsg depth "Expecting ',' delimiter"
          | [] => errmsg depth "Expecting ',' delimiter"
          end
      | Failed msg => Failed msg
      | TooDeep => TooDeep
      | TooLong => TooLong
      | OutOfFuel => OutOfFuel
      end
  end

(** the loop of [JSONObject]: [s] is after the quote opening a key;
    [pairs] reversed *)
with JSONObject (fuel depth : nat) (s : list ascii)
    (pairs : list (string * pyobj)) : scan (pyobj * list ascii) :=
  match fuel with
  | O => OutOfFuel
  | S fuel =>
      match scanstring s [] with
      | Scanned (key, rest) =>
          match skip_ws rest with
          | c :: r =>
              if ord c =? 58 then
                match scan_once fuel depth (skip_ws r) with
                | Scanned (value, rest1) =>
                    match skip_ws rest1 with
                    | c1 :: r1 =>
                        if ord c1 =? 125 then
                          Scanned (PDict (Dict.of_pairs (rev ((key, value) :: pairs))), r1)
                        else if ord c1 =? 44 then
                          match skip_ws r1 with
                          | c2 :: r2 =>
                              if ord c2 =? 34 then
                                JSONObject fuel depth r2 ((key, value) :: pairs)
                              else
                                errmsg depth
                                  "Expecting property name enclosed in double quotes"
                          | [] =>
                              errmsg depth
                                "Expecting property name enclosed in double quotes"
                          end
                        else errmsg depth "Expecting ',' delimiter"
                    | [] => errmsg depth "Expecting ',' delimiter"
                    end
                | Failed msg => Failed msg
                | TooDeep => TooDeep
                | TooLong => TooLong
                | OutOfFuel => OutOfFuel
                end
              else errmsg depth "Expecting ':' delimiter"
          | [] => errmsg depth "Expecting ':' delimiter"
          end
      | Failed msg => errmsg depth msg
      | TooDeep => TooDeep
      | TooLong => TooLong
      | OutOfFuel => OutOfFuel
      end
  end.

(** Fuel that [scan_once] cannot exhaust on [s]. *)
Definition enough (s : list ascii) : nat := 2 * length s + 1.

(** The text starts with U+FEFF, the byte order mark. *)
Definition starts_with_bom (s : list ascii) : bool :=
  match s with
  | a :: b :: c :: _ => (ord a =? 239) && (ord b =? 187) && (ord c =? 191)
  | _ => false
  end.

(** [json.loads(s)] for a [str], the scanner starting with room for
    [depth] calls: the check for a byte order mark, then
    [JSONDecoder.decode], one value between optional whitespace. *)
Definition loads (depth : nat) (s : list ascii) : scan pyobj :=
  if starts_with_bom s
  then Failed "Unexpected UTF-8 BOM (decode using utf-8-sig)"
  else
    let s0 := skip_ws s in
    match scan_once (enough s0) depth s0 with
    | Scanned (obj, rest) =>
        match skip_ws rest with
        | [] => Scanned obj
        | _ :: _ => Failed "Extra data"
        end
    | Failed msg => Failed msg
    | TooDeep => TooDeep
    | TooLong => TooLong
    | OutOfFuel => OutOfFuel
    end.
End Scanner.

(** The decoder with no limit in its way: an error takes no room, [int]
    converts any number of digits, and there is room for as many nested
    arrays and objects as the text has characters. *)
Definition decode (s : list ascii) : scan pyobj := loads 0 0 (length s) s.

(** The JSON texts: what the grammar of the decoder accepts. *)
Definition valid (s : list ascii) : bool :=
  match decode s with
  | Scanned _ => true
  | _ => false
  end.

(** The brackets and braces that open an array or an object in a text,
    those inside its strings counted too: a bound on its nesting. *)
Definition opens (c : ascii) : bool := (ord c =? 91) || (ord c =? 123).

Definition count_open (s : list ascii) : nat := length (filter opens s).

(** The length of the longest run of decimal digits in a text: a bound
    on the digits of its integers. *)
Definition digit_run (s : list ascii) : nat := length (fst (span_digits s)).

Fixpoint max_digit_run (s : list ascii) : nat :=
  match s with
  | [] => 0
  | _ :: r => Nat.max (digit_run s) (max_digit_run r)
  end.

(** A scanning step answered, and consumed input if it scanned a value. *)
Definition progress {A} (x : scan (A * list ascii)) (s : list ascii) : Prop :=
  match x with
  | Scanned (_, rest) => length rest < length s
  | OutOfFuel => False
  | _ => True
  end.

(** A scanning step left no more of a measure of the input than there
    was. *)
Definition bounded {A} (mu : list ascii -> nat) (x : scan (A * list ascii))
    (s : list ascii) : Prop :=
  match x with
  | Scanned (_, rest) => mu rest <= mu s
  | _ => True
  end.

(** A scanning step ended as the grammar has it: with a value or with
    the failure of a text that is not JSON, not at a limit. *)
Definition settled {A} (x : scan A) : bool :=
  match x with
  | Scanned _ | Failed _ => true
  | _ => false
  end.

End Json.

(** ** Tool calls, exceptions and the store *)

(** [groq.types.chat.chat_completion]: the tool call of a choice message.
    Every member is optional in the vendor's type. *)
Module ToolCall.
Record Function : Type := {
  arguments : option string;
  name : option string
}.

Record t : Type := {
  id : option string;
  function : option Function;
  type : option string
}.
End ToolCall.

(** A step into a value, as in the [loc] of a validation error. *)
Inductive loc_item : Type :=
| Key (k : string)
| Index (i : nat).

Inductive error_type : Type :=
| missing
| string_type
| int_type
| float_type
| bool_type
| list_type
| is_instance_of
| model_type.

Record ErrorDetails : Type := {
  err_type : error_type;
  err_loc : list loc_item
}.

(** The exceptions raised, each constructor one class. A [ValueError]
    carries the exception it was raised from: [from_tool_call] raises
    one from a [JSONDecodeError], [int] raises one from nothing for a
    text of too many digits. *)
Unset Elimination Schemes.
Inductive exn : Type :=
| JSONDecodeError (msg : string)
| RecursionError
| ValueError (cause : option exn)
| TypeError (msg : string)
| ValidationError (errors : list ErrorDetails)
| SchemaBuildError (parameter : string).
Set Elimination Schemes.


(** The store: the tool call object each address holds. *)
Definition store := addr -> ToolCall.t.

Inductive outcome (A : Type) : Type :=
| Return (a : A)
| Raise (e : exn).
Arguments Return {A} a.
Arguments Raise {A} e.

(** Computations that read and write the store and may raise. *)
Definition M (A : Type) : Type := store -> outcome A * store.

Definition ret {A} (a : A) : M A := fun st => (Return a, st).

Definition raise {A} (e : exn) : M A := fun st => (Raise e, st).

Definition bind {A B} (c : M A) (k : A -> M B) : M B :=
  fun st =>
    match c st with
    | (Return a, st') => k a st'
    | (Raise e, st') => (Raise e, st')
    end.

Notation "x <- c ;; k" := (bind c (fun x => k))
  (at level 61, c at next level, right associativity).

(** [try: body  except ...: handler]; a handler answers [None] for the
    exceptions its clause does not name. *)
Definition try_except {A} (body : M A) (handler : exn -> option (M A)) : M A :=
  fun st =>
    match body st with
    | (Return a, st') => (Return a, st')
    | (Raise e, st') =>
        match handler e with
        | Some h => h st'
        | None => (Raise e, st')
        end
    end.

(** [except json.JSONDecodeError as e: h e] *)
Definition except_JSONDecodeError {A} (h : exn -> M A) (e : exn) : option (M A) :=
  match e with
  | JSONDecodeError _ => Some (h e)
  | _ => None
  end.

(** Reading the object behind a reference. *)
Definition load (a : addr) : M ToolCall.t := fun st => (Return (st a), st).

(** Attribute assignment on a stored object: [a.function = f]. Nothing
    in [tools.py] does it; it is what writing to a tool call would be. *)
Definition set_function (a : addr) (f : option ToolCall.Function) : M unit :=
  fun st =>
    (Return tt,
     fun a' =>
       if a' =? a
       then {| ToolCall.id := ToolCall.id (st a);
               ToolCall.function := f;
               ToolCall.type := ToolCall.type (st a) |}
       else st a').

(** [bool(s)] for a [str]. *)
Definition truthy (s : string) : bool :=
  match s with EmptyString => false | String _ _ => true end.

(** The interpreter [from_tool_call] runs in, as far as [json.loads]
    depends on it: the room left for calls when the scanner starts
    ([sys.getrecursionlimit()] less the calls under way), the calls it
    takes to build a [JSONDecodeError] (three in CPython 3.11), and
    [sys.get_int_max_str_digits()], 0 for no limit. There is room to
    enter one array or object and to build the error of a text that is
    not JSON; an interpreter with less is about to fail at whatever it
    calls next, and is left out. *)
Class Interpreter : Type := {
  recursion_room : nat;
  error_frames : nat;
  int_max_str_digits : nat;
  has_room : Nat.max 1 error_frames <= recursion_room
}.

(** [json.loads(s)] for a [str]. It raises [JSONDecodeError] for a text
    that is not JSON, [RecursionError] for one nested deeper than there
    is room for, and the [ValueError] of [int] for an integer of too
    many digits. The scanner running out of fuel is shown unreachable
    by [loads_answers]. *)
Definition json_loads `{Interpreter} (s : string) : M pyobj :=
  match Json.loads error_frames int_max_str_digits recursion_room
                   (list_ascii_of_string s) with
  | Json.Scanned obj => ret obj
  | Json.Failed msg => raise (JSONDecodeError msg)
  | Json.TooDeep => raise RecursionError
  | Json.TooLong => raise (ValueError None)
  | Json.OutOfFuel => raise RecursionError
  end.

(** [obj[key] = v]; only a [dict] takes a [str] key. *)
Definition setitem (obj : pyobj) (key : string) (v : pyobj) : M pyobj :=
  match obj with
  | PDict d => ret (PDict (Dict.set key v d))
  | PList _ => raise (TypeError "list indices must be integers or slices, not str")
  | PNone => raise (TypeError "'NoneType' object does not support item assignment")
  | PBool _ => raise (TypeError "'bool' object does not support item assignment")
  | PInt _ => raise (TypeError "'int' object does not support item assignment")
  | PFloat _ => raise (TypeError "'float' object does not support item assignment")
  | PStr _ => raise (TypeError "'str' object does not support item assignment")
  | PRef _ =>
      raise (TypeError "'ChoiceMessageToolCall' object does not support item assignment")
  end.

(** ** Tool classes *)

(** Types a field of a tool is declared with: the primitive types,
    sequences, optional values ([Optional[t]], a [t] or [None]) and
    nested structured types, whose fields are named, typed, and required
    or not. *)
Unset Elimination Schemes.
Inductive ftype : Type :=
| TStr
| TInt
| TFloat
| TBool
| TList (item : ftype)
| TOptional (t : ftype)
| TObject (fields : list (string * (ftype * bool))).
Set Elimination Schemes.

Record FieldInfo : Type := {
  annotation : ftype;
  default : option pyobj;
  description : option string
}.

(** A subclass of [GroqTool]: its name, its docstring and the fields its
    body declares, in order. *)
Record ToolClass : Type := {
  cls_name : string;
  cls_doc : option string;
  cls_fields : list (string * FieldInfo)
}.

(** What a tool instance holds: the value of every field, and the names
    of the fields that were given rather than defaulted. *)
Record ToolInstance : Type := {
  inst_class : ToolClass;
  inst_values : Dict.t pyobj;
  model_fields_set : list string
}.

(** The key the tool call is stored under. *)
Definition TOOL_CALL : string := "tool_call".

(** [BaseTool.args]: the fields other than the tool call. *)
Definition args (inst : ToolInstance) : Dict.t pyobj :=
  filter (fun kv => negb (String.eqb (fst kv) TOOL_CALL)) (inst_values inst).

(** The arguments the instance was given: [args] without the defaults. *)
Definition explicit_args (inst : ToolInstance) : Dict.t pyobj :=
  filter (fun kv => existsb (String.eqb (fst kv)) (model_fields_set inst))
         (args inst).

(** ** Tool sources *)

(** A parameter of a callable: its annotation and default, if any, and
    what the documentation says about it. *)
Record Param : Type := {
  param_name : string;
  param_annotation : option ftype;
  param_default : option pyobj;
  param_description : option string
}.

(** A callable: [fn_doc] is the tool description its documentation gives,
    [None] when there is none to parse. *)
Record Callable : Type := {
  fn_name : string;
  fn_doc : option string;
  fn_parameters : list Param
}.

(** A structured type: named, typed fields. *)
Record StructuredType : Type := {
  model_name : string;
  model_doc : option string;
  model_fields_decl : list (string * FieldInfo)
}.

(** A type wrapping one primitive value. *)
Record BaseType : Type := {
  wrapped : ftype
}.

(** ** What [tools.py] imports from [..base] *)

(** What [GroqTool] inherits from [BaseTool], which is not part of the
    sources at hand: the vendor neutral schema and the validating
    constructor. *)
Class BaseTool : Type := {
  super_tool_schema : ToolClass -> M pyobj;
  model_validate : ToolClass -> pyobj -> M ToolInstance
}.

(** The converters of [..base.utils], not part of the sources at hand. *)
Class BaseUtils : Type := {
  convert_base_model_to_tool : StructuredType -> M ToolClass;
  convert_function_to_tool : Callable -> M ToolClass;
  convert_base_type_to_tool : BaseType -> M ToolClass
}.

(** ** [GroqTool] *)

(** Every [ToolClass] stands for a subclass of [GroqTool], so the [cls]
    the class methods receive is one, and the base the converters are
    given is [GroqTool] throughout. *)
Module GroqTool.
Section Methods.
Context `{Interpreter} `{BaseTool}.

(** [GroqTool.tool_schema] *)
Definition tool_schema (cls : ToolClass) : M pyobj :=
  fn <- super_tool_schema cls ;;
  ret (PDict [("type", PStr "function"); ("function", fn)]).

(** [GroqTool.from_tool_call]; [tool_call] is the address of the tool
    call object. *)
Definition from_tool_call (cls : ToolClass) (tool_call : addr) : M ToolInstance :=
  model_json <-
    try_except
      (let model_json := PDict [] in
       tc <- load tool_call ;;
       match ToolCall.function tc with
       | Some function =>
           match ToolCall.arguments function with
           | Some arguments =>
               if truthy arguments then json_loads arguments else ret model_json
           | None => ret model_json
           end
       | None => ret model_json
       end)
      (except_JSONDecodeError (fun e => raise (ValueError (Some e)))) ;;
  model_json <- setitem model_json TOOL_CALL (PRef tool_call) ;;
  model_validate cls model_json.
End Methods.

Section Constructors.
Context `{BaseUtils}.

(** [GroqTool.from_model] *)
Definition from_model (model : StructuredType) : M ToolClass :=
  convert_base_model_to_tool model.

(** [GroqTool.from_fn] *)
Definition from_fn (fn : Callable) : M ToolClass :=
  convert_function_to_tool fn.

(** [GroqTool.from_base_type] *)
Definition from_base_type (base_type : BaseType) : M ToolClass :=
  convert_base_type_to_tool base_type.
End Constructors.
End GroqTool.

(** ** The base package, from its specification *)

Module Base.

(** Modelled from the spec: the fields of a tool class. [BaseTool] is
    missing from the sources; by the spec an instance keeps a reference
    to the call it was made from, which the schema does not declare. So
    every class has a field under [TOOL_CALL] that holds the tool call
    and stays out of the schema, unless its own body declares a field of
    that name, which then takes its place as in any Python class. *)
Inductive model_field : Type :=
| ToolCallField
| Declared (info : FieldInfo).

Definition model_fields (cls : ToolClass) : Dict.t model_field :=
  fold_left (fun d kf => Dict.set (fst kf) (Declared (snd kf)) d)
            (cls_fields cls) [(TOOL_CALL, ToolCallField)].

Definition error (ty : error_type) (loc : list loc_item) : ErrorDetails :=
  {| err_type := ty; err_loc := loc |}.

(** The errors of the items of a list, each under its index. *)
Fixpoint check_items (chk : pyobj -> list loc_item -> list ErrorDetails)
    (items : list pyobj) (i : nat) (loc : list loc_item) : list ErrorDetails :=
  match items with
  | [] => []
  | x :: rest => chk x (loc ++ [Index i]) ++ check_items chk rest (S i) loc
  end.

(** The errors of the members of an object against the fields of a
    structured type: a field that is there must satisfy its type, a
    required field must be there. *)
Fixpoint check_members (chk : ftype -> pyobj -> list loc_item -> list ErrorDetails)
    (fields : list (string * (ftype * bool))) (d : Dict.t pyobj)
    (loc : list loc_item) : list ErrorDetails :=
  match fields with
  | [] => []
  | (k, (t, required)) :: rest =>
      match Dict.get k d with
      | Some x => chk t x (loc ++ [Key k])
      | None => if required then [error missing (loc ++ [Key k])] else []
      end ++ check_members chk rest d loc
  end.

(** Modelled from the spec: validation of a value against a declared
    type. The validator is missing from the sources; by the spec a value
    that does not satisfy the declared type is an error and is not
    coerced. A number field takes any JSON number, an optional one takes
    [None] too, a nested structured type takes an object whose members
    satisfy its fields. The result lists the errors, none for a value of
    the type. *)
Fixpoint check (t : ftype) (v : pyobj) (loc : list loc_item) : list ErrorDetails :=
  match t with
  | TStr => match v with PStr _ => [] | _ => [error string_type loc] end
  | TInt => match v with PInt _ => [] | _ => [error int_type loc] end
  | TFloat =>
      match v with PInt _ | PFloat _ => [] | _ => [error float_type loc] end
  | TBool => match v with PBool _ => [] | _ => [error bool_type loc] end
  | TList item =>
      match v with
      | PList items => check_items (check item) items 0 loc
      | _ => [error list_type loc]
      end
  | TOptional t' =>
      match v with
      | PNone => []
      | _ => check t' v loc
      end
  | TObject fields =>
      match v with
      | PDict d => check_members check fields d loc
      | _ => [error model_type loc]
      end
  end.

(** Modelled from the spec: validation of one field. A field that was
    given must satisfy its type; a field that was not given takes its
    default and is an error when it has none (a required field). *)
Definition validate_field (k : string) (mf : model_field) (input : option pyobj)
  : list ErrorDetails + (pyobj * bool) :=
  match mf, input with
  | ToolCallField, Some (PRef a) => inr (PRef a, true)
  | ToolCallField, Some _ => inl [error is_instance_of [Key k]]
  | ToolCallField, None => inl [error missing [Key k]]
  | Declared info, Some v =>
      match check (annotation info) v [Key k] with
      | [] => inr (v, true)
      | errs => inl errs
      end
  | Declared info, None =>
      match default info with
      | Some d => inr (d, false)
      | None => inl [error missing [Key k]]
      end
  end.

(** All fields in turn: the errors, the values, the names given. *)
Fixpoint validate_fields (fields : Dict.t model_field) (input : Dict.t pyobj)
  : list ErrorDetails * Dict.t pyobj * list string :=
  match fields with
  | [] => ([], [], [])
  | (k, mf) :: rest =>
      let '(errs, vals, given) := validate_fields rest input in
      match validate_field k mf (Dict.get k input) with
      | inl es => (es ++ errs, vals, given)
      | inr (v, true) => (errs, (k, v) :: vals, k :: given)
      | inr (v, false) => (errs, (k, v) :: vals, given)
      end
  end.

(** Modelled from the spec: [cls.model_validate(obj)], the validating
    constructor the class inherits, missing from the sources. It builds
    the instance when every field validates and raises the validation
    error otherwise; keys that name no field are ignored. *)
Definition model_validate (cls : ToolClass) (obj : pyobj) : M ToolInstance :=
  match obj with
  | PDict input =>
      match validate_fields (model_fields cls) input with
      | ([], vals, given) =>
          ret {| inst_class := cls; inst_values := vals; model_fields_set := given |}
      | (errs, _, _) => raise (ValidationError errs)
      end
  | _ => raise (ValidationError [error model_type []])
  end.

(** Modelled from the spec: the schema of a declared type. Primitive
    types map to their JSON type, sequences to an array of the schema of
    their items, nested structured types to a nested object schema; an
    optional value is either of its type or null. *)
Fixpoint schema_of_type (t : ftype) : Dict.t pyobj :=
  match t with
  | TStr => [("type", PStr "string")]
  | TInt => [("type", PStr "integer")]
  | TFloat => [("type", PStr "number")]
  | TBool => [("type", PStr "boolean")]
  | TList item => [("type", PStr "array"); ("items", PDict (schema_of_type item))]
  | TOptional t' =>
      [("anyOf", PList [PDict (schema_of_type t'); PDict [("type", PStr "null")]])]
  | TObject fields =>
      [("type", PStr "object");
       ("properties",
        PDict (map (fun f => (fst f, PDict (schema_of_type (fst (snd f))))) fields));
       ("required",
        PList (map (fun f => PStr (fst f)) (filter (fun f => snd (snd f)) fields)))]
  end.

(** The schema of a field: that of its type, with its description when
    it has one. *)
Definition field_schema (info : FieldInfo) : pyobj :=
  PDict (schema_of_type (annotation info) ++
         match description info with
         | Some d => [("description", PStr d)]
         | None => []
         end).

(** The fields the schema declares: all but the tool call. *)
Fixpoint schema_fields (fields : Dict.t model_field) : list (string * FieldInfo) :=
  match fields with
  | [] => []
  | (k, Declared info) :: rest => (k, info) :: schema_fields rest
  | (_, ToolCallField) :: rest => schema_fields rest
  end.

Definition properties (cls : ToolClass) : Dict.t pyobj :=
  map (fun kf => (fst kf, field_schema (snd kf))) (schema_fields (model_fields cls)).

Definition has_default (info : FieldInfo) : bool :=
  match default info with Some _ => true | None => false end.

(** The names of the schema's fields that have no default. *)
Definition required_names (cls : ToolClass) : list string :=
  map fst (filter (fun kf => negb (has_default (snd kf)))
                  (schema_fields (model_fields cls))).

(** Modelled from the spec: the schema of the arguments, an object schema
    whose [required] leaves out the fields that have a default. *)
Definition parameter_schema (cls : ToolClass) : pyobj :=
  PDict [("type", PStr "object");
         ("properties", PDict (properties cls));
         ("required", PList (map PStr (required_names cls)))].

(** The description of a tool: its documentation, empty without one. *)
Definition tool_description (cls : ToolClass) : string :=
  match cls_doc cls with Some d => d | None => "" end.

(** Modelled from the spec: [BaseTool.tool_schema], missing from the
    sources: the vendor neutral triple of name, description and
    parameters. *)
Definition tool_schema (cls : ToolClass) : M pyobj :=
  ret (PDict [("name", PStr (cls_name cls));
              ("description", PStr (tool_description cls));
              ("parameters", parameter_schema cls)]).

(** Modelled from the spec: [convert_base_model_to_tool], missing from
    the sources: the tool has the fields of the structured type. *)
Definition convert_base_model_to_tool (model : StructuredType) : M ToolClass :=
  ret {| cls_name := model_name model;
         cls_doc := model_doc model;
         cls_fields := model_fields_decl model |}.

(** The fields mirroring the parameters of a callable; the first
    parameter without an annotation is the failure. *)
Fixpoint fields_of_parameters (ps : list Param)
  : string + list (string * FieldInfo) :=
  match ps with
  | [] => inr []
  | p :: rest =>
      match param_annotation p with
      | None => inl (param_name p)
      | Some t =>
          match fields_of_parameters rest with
          | inl bad => inl bad
          | inr fields =>
              inr ((param_name p,
                    {| annotation := t;
                       default := param_default p;
                       description := param_description p |}) :: fields)
          end
      end
  end.

(** Modelled from the spec: [convert_function_to_tool], missing from the
    sources: a structured type whose fields mirror the parameters, a
    parameter with a default being optional; a parameter without a type
    annotation fails the build, naming the parameter. *)
Definition convert_function_to_tool (fn : Callable) : M ToolClass :=
  match fields_of_parameters (fn_parameters fn) with
  | inl bad => raise (SchemaBuildError bad)
  | inr fields =>
      ret {| cls_name := fn_name fn; cls_doc := fn_doc fn; cls_fields := fields |}
  end.

Definition type_name (t : ftype) : string :=
  match t with
  | TStr => "str"
  | TInt => "int"
  | TFloat => "float"
  | TBool => "bool"
  | TList _ => "list"
  | TOptional _ => "Optional"
  | TObject _ => "dict"
  end.

(** Modelled from the spec: [convert_base_type_to_tool], missing from
    the sources: a structured type with exactly one field, of the wrapped
    type and without a default. The spec fixes a reserved name for the
    field without giving it; it is the parameter [value_field]. *)
Definition convert_base_type_to_tool (value_field : string) (base_type : BaseType)
  : M ToolClass :=
  ret {| cls_name := type_name (wrapped base_type);
         cls_doc := None;
         cls_fields :=
           [(value_field,
             {| annotation := wrapped base_type;
                default := None;
                description := None |})] |}.

End Base.

(** CPython 3.11 with the limits it starts with, [from_tool_call] being
    called some ten calls into the program. *)
#[export] Instance cpython : Interpreter := {|
  recursion_room := 990;
  error_frames := 3;
  int_max_str_digits := 4300;
  has_room := proj1 (Nat.leb_le (Nat.max 1 3) 990) eq_refl
|}.

(** The base class as specified. *)
#[export] Instance base_tool : BaseTool := {|
  super_tool_schema := Base.tool_schema;
  model_validate := Base.model_validate
|}.

(** The converters as specified, for a name of the field of a primitive
    wrapping type. *)
Definition base_utils (value_field : string) : BaseUtils := {|
  convert_base_model_to_tool := Base.convert_base_model_to_tool;
  convert_function_to_tool := Base.convert_function_to_tool;
  convert_base_type_to_tool := Base.convert_base_type_to_tool value_field
|}.

(** ** Running examples *)

(** JSON text written with apostrophes for the double quotes. *)
Definition json_text (s : string) : string :=
  string_of_list_ascii
    (map (fun c => if Json.ord c =? 39 then Json.QUOTE else c)
         (list_ascii_of_string s)).

(** A tool call asking for [fn] with the argument text [raw]. *)
Definition call (fn : string) (raw : string) : ToolCall.t :=
  {| ToolCall.id := Some "call_1";
     ToolCall.function :=
       Some {| ToolCall.arguments := Some raw; ToolCall.name := Some fn |};
     ToolCall.type := Some "function" |}.

(** A store with the same tool call everywhere. *)
Definition store_of (tc : ToolCall.t) : store := fun _ => tc.

(** [def lookup(city: str, units: str = "metric") -> str] *)
Definition lookup : Callable :=
  {| fn_name := "lookup";
     fn_doc := Some "Looks up the weather of a city.";
     fn_parameters :=
       [ {| param_name := "city"; param_annotation := Some TStr;
            param_default := None;
            param_description := Some "the city to look up" |};
         {| param_name := "units"; param_annotation := Some TStr;
            param_default := Some (PStr "metric");
            param_description := Some "the units to answer in" |} ] |}.

(** The tool class [from_fn] makes of [lookup]. *)
Definition Lookup : ToolClass :=
  {| cls_name := "lookup";
     cls_doc := Some "Looks up the weather of a city.";
     cls_fields :=
       [ ("city", {| annotation := TStr; default := None;
                     description := Some "the city to look up" |});
         ("units", {| annotation := TStr; default := Some (PStr "metric");
                      description := Some "the units to answer in" |}) ] |}.



(** A tool class whose body declares [tool_call: str]. *)
Definition Shadow : ToolClass :=
  {| cls_name := "shadow";
     cls_doc := None;
     cls_fields :=
       [ ("tool_call", {| annotation := TStr; default := None;
                          description := None |}) ] |}.

(** A tool class whose body declares [tool_call: str = "none"]. *)
Definition ShadowDefault : ToolClass :=
  {| cls_name := "ShadowDefault";
     cls_doc := None;
     cls_fields :=
       [ ("tool_call", {| annotation := TStr; default := Some (PStr "none");
                          description := None |}) ] |}.



(** [class Address(BaseModel)] with [street: str] and
    [zip: Optional[str] = None], as the type of a field. *)
Definition Address : ftype :=
  TObject [("street", (TStr, true)); ("zip", (TOptional TStr, false))].

(** [class Order(BaseModel)]: a structured type with a number, an
    optional value, a nested structured type and a sequence. *)
Definition order : StructuredType :=
  {| model_name := "Order";
     model_doc := Some "Places an order.";
     model_fields_decl :=
       [ ("item", {| annotation := TStr; default := None;
                     description := Some "what to order" |});
         ("price", {| annotation := TFloat; default := None;
                      description := Some "the price to pay" |});
         ("note", {| annotation := TOptional TStr; default := Some PNone;
                     description := None |});
         ("address", {| annotation := Address; default := None;
                        description := Some "where to deliver" |});
         ("tags", {| annotation := TList TStr; default := Some (PList []);
                     description := None |}) ] |}.

(** The tool class [from_model] makes of [order]. *)
Definition Order : ToolClass :=
  {| cls_name := "Order";
     cls_doc := Some "Places an order.";
     cls_fields := model_fields_decl order |}.

(** ** Vocabulary of the properties *)

(** [obj[key]] for a [str] key. *)
Definition getitem (obj : pyobj) (key : string) : option pyobj :=
  match obj with
  | PDict d => Dict.get key d
  | _ => None
  end.

(** [obj[k1][k2]...] *)
Fixpoint getpath (obj : pyobj) (path : list string) : option pyobj :=
  match path with
  | [] => Some obj
  | k :: rest =>
      match getitem obj k with
      | Some v => getpath v rest
      | None => None
      end
  end.

(** The argument text [from_tool_call] hands to [json.loads]: there is a
    function member, and its arguments are a non-empty string. *)
Definition arguments_text (tc : ToolCall.t) : option string :=
  match ToolCall.function tc with
  | Some function =>
      match ToolCall.arguments function with
      | Some arguments => if truthy arguments then Some arguments else None
      | None => None
      end
  | None => None
  end.


(** A computation that answers the same in every store and writes
    nothing. *)
Definition pure {A} (c : M A) : Prop :=
  exists r, forall st, c st = (r, st).

(** The class body declares a field under the key of the tool call. *)
Definition declares_tool_call (cls : ToolClass) : bool :=
  existsb (String.eqb TOOL_CALL) (map fst (cls_fields cls)).

(** A value of a declared type: a JSON number for a number, [None] or
    a value of the type for an optional value, for a nested structured
    type an object whose members are of the types of its fields and that
    has the required ones. *)
Fixpoint has_type (t : ftype) (v : pyobj) : bool :=
  match t with
  | TStr => match v with PStr _ => true | _ => false end
  | TInt => match v with PInt _ => true | _ => false end
  | TFloat => match v with PInt _ | PFloat _ => true | _ => false end
  | TBool => match v with PBool _ => true | _ => false end
  | TList item =>
      match v with
      | PList items => forallb (has_type item) items
      | _ => false
      end
  | TOptional t' =>
      match v with
      | PNone => true
      | _ => has_type t' v
      end
  | TObject fields =>
      match v with
      | PDict d =>
          forallb (fun f =>
                     match Dict.get (fst f) d with
                     | Some x => has_type (fst (snd f)) x
                     | None => negb (snd (snd f))
                     end) fields
      | _ => false
      end
  end.

(** The fields the schema of a class declares, by name. *)
Definition schema_field (cls : ToolClass) (k : string) : option FieldInfo :=
  Dict.get k (Base.schema_fields (Base.model_fields cls)).

(** A mapping of arguments that matches the schema of a class: every
    argument is a declared field and has its type, and every required
    field is there. *)
Definition valid_arguments (cls : ToolClass) (m : Dict.t pyobj) : bool :=
  forallb (fun kv =>
             match schema_field cls (fst kv) with
             | Some info => has_type (annotation info) (snd kv)
             | None => false
             end) m
  && forallb (fun x => Dict.mem x m) (Base.required_names cls).

(** Two mappings with the same value under every key. *)
Definition same_mapping (m1 m2 : Dict.t pyobj) : Prop :=
  forall k, Dict.get k m1 = Dict.get k m2.





(** The schema [GroqTool.tool_schema] renders for a class lists [x] as
    required. *)
Definition schema_requires (cls : ToolClass) (x : string) : Prop :=
  forall st, exists schema req,
    GroqTool.tool_schema cls st = (Return schema, st) /\
    getpath schema ["function"; "parameters"; "required"] = Some (PList req) /\
    In (PStr x) req.

(** * Properties *)

(** ** [json.loads] always answers *)

Module JsonFacts.
Import Json.

Lemma skip_ws_length (s : list ascii) : length (skip_ws s) <= length s.
Proof.
  induction s as [|c r IH]; simpl; [lia|].
  destruct (is_ws c); simpl; lia.
Qed.

(** One step of [scanstring]. *)
Lemma scanstring_cons (c : ascii) (r acc : list ascii) :
  scanstring (c :: r) acc =
  if ord c =? 34 then Scanned (string_of_list_ascii (rev acc), r)
  else if ord c =? 92 then
    match r with
    | [] => Failed "Unterminated string starting at"
    | e :: r1 =>
        if ord e =? 117 then
          match r1 with
          | h1 :: h2 :: h3 :: h4 :: ((_ :: _) as r2) =>
              match hex4 h1 h2 h3 h4 with
              | None => Failed "Invalid \uXXXX escape"
              | Some uni =>
                  let single := scanstring r2 (rev (utf8 uni) ++ acc) in
                  if is_high_surrogate uni then
                    match r2 with
                    | b :: u :: l1 :: l2 :: l3 :: l4 :: ((_ :: _) as r3) =>
                        if (ord b =? 92) && (ord u =? 117) then
                          match hex4 l1 l2 l3 l4 with
                          | None => Failed "Invalid \uXXXX escape"
                          | Some uni2 =>
                              if is_low_surrogate uni2 then
                                let joined :=
                                  (65536 + (uni - 55296) * 1024
                                   + (uni2 - 56320))%N in
                                scanstring r3 (rev (utf8 joined) ++ acc)
                              else single
                          end
                        else single
                    | _ => single
                    end
                  else single
              end
          | _ => Failed "Invalid \uXXXX escape"
          end
        else
          match escape_char e with
          | Some ch => scanstring r1 (ch :: acc)
          | None => Failed "Invalid \escape"
          end
    end
  else if ord c <? 32 then Failed "Invalid control character at"
  else scanstring r (c :: acc).
Proof. reflexivity. Qed.

(** What [scanstring] comes to is what it comes to on a shorter text,
    or is decided on the spot: the shape every fact about it is proved
    by. *)
Lemma scanstring_cases (P : scan (string * list ascii) -> Prop)
    (c : ascii) (r acc : list ascii) :
  P (Scanned (string_of_list_ascii (rev acc), r)) ->
  (forall msg, P (Failed msg)) ->
  (forall t acc', length t <= length r -> (exists p, r = p ++ t) ->
                  P (scanstring t acc')) ->
  P (scanstring (c :: r) acc).
Proof.
  intros Hquote Hfail Hrec. rewrite scanstring_cons.
  destruct (ord c =? 34); [exact Hquote|].
  destruct (ord c =? 92).
  - destruct r as [|e r1]; [apply Hfail|].
    destruct (ord e =? 117).
    + destruct r1 as [|h1 [|h2 [|h3 [|h4 [|x r2]]]]]; try apply Hfail.
      destruct (hex4 h1 h2 h3 h4) as [uni|]; [|apply Hfail].
      cbv zeta.
      assert (single : P (scanstring (x :: r2) (rev (utf8 uni) ++ acc))).
      { apply Hrec; [simpl; lia|]. exists [e; h1; h2; h3; h4]. reflexivity. }
      destruct (is_high_surrogate uni); [|exact single].
      destruct r2 as [|u [|l1 [|l2 [|l3 [|l4 [|y r3]]]]]]; try exact single.
      destruct ((ord x =? 92) && (ord u =? 117)); [|exact single].
      destruct (hex4 l1 l2 l3 l4) as [uni2|]; [|apply Hfail].
      destruct (is_low_surrogate uni2); [|exact single].
      apply Hrec; [simpl; lia|].
      exists [e; h1; h2; h3; h4; x; u; l1; l2; l3; l4]. reflexivity.
    + destruct (escape_char e); [|apply Hfail].
      apply Hrec; [simpl; lia|]. exists [e]. reflexivity.
  - destruct (ord c <? 32); [apply Hfail|].
    apply Hrec; [lia|]. exists []. reflexivity.
Qed.

(** [scanstring] ends with a string or with a failure. *)
Lemma scanstring_settled_le (n : nat) :
  forall s acc, length s <= n -> settled (scanstring s acc) = true.
Proof.
  induction n as [|n IH]; intros s acc Hn.
  - destruct s; [reflexivity | simpl in Hn; lia].
  - destruct s as [|c r]; [reflexivity|]. simpl in Hn.
    apply scanstring_cases; [reflexivity | reflexivity |].
    intros t acc' Ht _. apply IH. lia.
Qed.

Lemma scanstring_settled (s acc : list ascii) : settled (scanstring s acc) = true.
Proof. apply (scanstring_settled_le (length s)). lia. Qed.

Lemma scanstring_progress_le (n : nat) :
  forall s acc, length s <= n -> progress (scanstring s acc) s.
Proof.
  induction n as [|n IH]; intros s acc Hn.
  - destruct s; simpl in *; [exact I | lia].
  - destruct s as [|c r]; [exact I|]. simpl in Hn.
    apply scanstring_cases; [simpl; lia | intros; exact I |].
    intros t acc' Ht _. specialize (IH t acc' ltac:(lia)).
    unfold progress in *. destruct (scanstring t acc') as [[? ?]| | | |]; simpl; auto; lia.
Qed.

Lemma scanstring_progress (s acc : list ascii) : progress (scanstring s acc) s.
Proof. apply (scanstring_progress_le (length s)); lia. Qed.

Lemma span_digits_length (s : list ascii) :
  length (snd (span_digits s)) <= length s.
Proof.
  induction s as [|c r IH]; simpl; [lia|].
  destruct (is_digit c); simpl; [|lia].
  destruct (span_digits r); simpl in *; lia.
Qed.

Lemma match_integer_length (s lexeme rest : list ascii) :
  match_integer s = Some (lexeme, rest) -> length rest < length s.
Proof.
  unfold match_integer.
  assert (digits : forall c r lx rs,
             (if ord c =? 48 then Some (lx ++ [c], r)
              else if is_digit c
                   then let '(ds, rest0) := span_digits (c :: r) in Some (lx ++ ds, rest0)
                   else None) = Some (lexeme, rs) ->
             length rs < length (c :: r)).
  { intros c r lx rs. destruct (ord c =? 48).
    - intros E; injection E as _ <-. simpl; lia.
    - destruct (is_digit c) eqn:D; [|discriminate].
      pose proof (span_digits_length r) as L.
      simpl. rewrite D. destruct (span_digits r) as [ds rest0]; simpl in *.
      intros E; injection E as _ <-. lia. }
  destruct s as [|c r]; [discriminate|].
  destruct (ord c =? 45).
  - destruct r as [|c' r']; [discriminate|]. intros E.
    apply digits in E. simpl in *; lia.
  - apply digits.
Qed.

Ltac span_case r1 :=
  let L := fresh "L" in
  let E := fresh "E" in
  pose proof (span_digits_length r1) as L;
  destruct (span_digits r1) as [[|? ?] ?]; [discriminate|];
  intros E; injection E as _ <-; simpl in *; lia.

Lemma match_frac_length (s lexeme rest : list ascii) :
  match_frac s = Some (lexeme, rest) -> length rest <= length s.
Proof.
  unfold match_frac. destruct s as [|c r]; [discriminate|].
  destruct (ord c =? 46); [|discriminate].
  pose proof (span_digits_length r) as L.
  destruct (span_digits r) as [[|d ds] rest0]; [discriminate|].
  intros E; injection E as _ <-. simpl in *; lia.
Qed.

Lemma match_exp_length (s lexeme rest : list ascii) :
  match_exp s = Some (lexeme, rest) -> length rest <= length s.
Proof.
  unfold match_exp. destruct s as [|e r]; [discriminate|].
  destruct ((ord e =? 101) || (ord e =? 69)); [|discriminate].
  destruct r as [|c r']; [discriminate|].
  destruct ((ord c =? 43) || (ord c =? 45)).
  - span_case r'.
  - span_case (c :: r').
Qed.

Lemma match_number_length (s : list ascii) (v : pyobj) (rest : list ascii) :
  match_number s = Some (v, rest) -> length rest < length s.
Proof.
  unfold match_number.
  destruct (match_integer s) as [[integer r0]|] eqn:EI; [|discriminate].
  apply match_integer_length in EI.
  assert (L1 : length (snd match match_frac r0 with
                           | Some (f, r) => (f, r) | None => ([], r0) end)
               <= length r0).
  { destruct (match_frac r0) as [[f r]|] eqn:EF; simpl; [|lia].
    apply match_frac_length in EF. lia. }
  destruct (match match_frac r0 with Some (f, r) => (f, r) | None => ([], r0) end)
    as [frac r1]; simpl in L1.
  assert (L2 : length (snd match match_exp r1 with
                           | Some (e, r) => (e, r) | None => ([], r1) end)
               <= length r1).
  { destruct (match_exp r1) as [[e r]|] eqn:EE; simpl; [|lia].
    apply match_exp_length in EE. lia. }
  destruct (match match_exp r1 with Some (e, r) => (e, r) | None => ([], r1) end)
    as [exp r2]; simpl in L2.
  destruct frac, exp; intros E; injection E as _ <-; lia.
Qed.

Lemma after_word_length (word s rest : list ascii) :
  after_word word s = Some rest -> length rest + length word = length s.
Proof.
  revert s; induction word as [|w word IH]; intros s; simpl.
  - intros E; injection E as <-. lia.
  - destruct s as [|c r]; [discriminate|].
    destruct (Ascii.eqb w c); [|discriminate].
    intros E. apply IH in E. simpl; lia.
Qed.

Lemma literal_length (word : string) (s rest : list ascii) :
  literal word s = Some rest ->
  length rest + String.length word = length s.
Proof.
  unfold literal. intros E. apply after_word_length in E.
  rewrite <- E. f_equal.
  clear. induction word; simpl; auto.
Qed.

Lemma scan_atom_progress (m : nat) (s : list ascii) :
  progress (scan_atom m s) s.
Proof.
  unfold scan_atom.
  repeat match goal with
         | |- context [literal ?w s] =>
             let E := fresh "E" in
             destruct (literal w s) eqn:E;
             [apply literal_length in E; simpl in E; simpl; lia|]
         | |- context [match_number s] =>
             let E := fresh "E" in
             destruct (match_number s) as [[? ?]|] eqn:E;
             [apply match_number_length in E;
              destruct (_ && _); simpl; [exact I | lia]|]
         end.
  exact I.
Qed.

Lemma progress_weaken {A} (x : scan (A * list ascii)) (s s' : list ascii) :
  progress x s -> length s <= length s' -> progress x s'.
Proof. destruct x as [[? ?]| | | |]; simpl; auto; lia. Qed.

Lemma errmsg_progress {A} (f depth : nat) (msg : string) (s : list ascii) :
  progress (@errmsg f (A * list ascii) depth msg) s.
Proof. unfold errmsg. destruct (depth <? f); exact I. Qed.

(** One step of each scanner. *)
Lemma scan_once_cons (f m fuel depth : nat) (c : ascii) (r : list ascii) :
  scan_once f m (S fuel) depth (c :: r) =
  if ord c =? 34 then
    match scanstring r [] with
    | Scanned (str, rest) => Scanned (PStr str, rest)
    | Failed msg => errmsg f depth msg
    | TooDeep => TooDeep
    | TooLong => TooLong
    | OutOfFuel => OutOfFuel
    end
  else if ord c =? 123 then
    match depth with
    | O => TooDeep
    | S depth =>
        match skip_ws r with
        | c1 :: r1 =>
            if ord c1 =? 125 then Scanned (PDict [], r1)
            else if ord c1 =? 34 then JSONObject f m fuel depth r1 []
            else errmsg f depth "Expecting property name enclosed in double quotes"
        | [] => errmsg f depth "Expecting property name enclosed in double quotes"
        end
    end
  else if ord c =? 91 then
    match depth with
    | O => TooDeep
    | S depth =>
        match skip_ws r with
        | c1 :: r1 =>
            if ord c1 =? 93 then Scanned (PList [], r1)
            else JSONArray f m fuel depth (c1 :: r1) []
        | [] => JSONArray f m fuel depth [] []
        end
    end
  else scan_atom m (c :: r).
Proof. reflexivity. Qed.

Lemma JSONArray_step (f m fuel depth : nat) (s : list ascii) (values : list pyobj) :
  JSONArray f m (S fuel) depth s values =
  match scan_once f m fuel depth s with
  | Scanned (value, rest) =>
      match skip_ws rest with
      | c :: r =>
          if ord c =? 93 then Scanned (PList (rev (value :: values)), r)
          else if ord c =? 44 then
            JSONArray f m fuel depth (skip_ws r) (value :: values)
          else errmsg f depth "Expecting ',' delimiter"
      | [] => errmsg f depth "Expecting ',' delimiter"
      end
  | Failed msg => Failed msg
  | TooDeep => TooDeep
  | TooLong => TooLong
  | OutOfFuel => OutOfFuel
  end.
Proof. reflexivity. Qed.

Lemma JSONObject_step (f m fuel depth : nat) (s : list ascii)
    (pairs : list (string * pyobj)) :
  JSONObject f m (S fuel) depth s pairs =
  match scanstring s [] with
  | Scanned (key, rest) =>
      match skip_ws rest with
      | c :: r =>
          if ord c =? 58 then
            match scan_once f m fuel depth (skip_ws r) with
            | Scanned (value, rest1) =>
                match skip_ws rest1 with
                | c1 :: r1 =>
                    if ord c1 =? 125 then
                      Scanned (PDict (Dict.of_pairs (rev ((key, value) :: pairs))), r1)
                    else if ord c1 =? 44 then
                      match skip_ws r1 with
                      | c2 :: r2 =>
                          if ord c2 =? 34 then
                            JSONObject f m fuel depth r2 ((key, value) :: pairs)
                          else
                            errmsg f depth
                              "Expecting property name enclosed in double quotes"
                      | [] =>
                          errmsg f depth
                            "Expecting property name enclosed in double quotes"
                      end
                    else errmsg f depth "Expecting ',' delimiter"
                | [] => errmsg f depth "Expecting ',' delimiter"
                end
            | Failed msg => Failed msg
            | TooDeep => TooDeep
            | TooLong => TooLong
            | OutOfFuel => OutOfFuel
            end
          else errmsg f depth "Expecting ':' delimiter"
      | [] => errmsg f depth "Expecting ':' delimiter"
      end
  | Failed msg => errmsg f depth msg
  | TooDeep => TooDeep
  | TooLong => TooLong
  | OutOfFuel => OutOfFuel
  end.
Proof. reflexivity. Qed.

(** With fuel for twice the input, no scanner runs out of it. *)
Lemma scanners_progress (f m fuel : nat) :
  (forall depth s, 2 * length s + 1 <= fuel ->
                   progress (scan_once f m fuel depth s) s) /\
  (forall depth s values, 2 * length s + 2 <= fuel ->
                          progress (JSONArray f m fuel depth s values) s) /\
  (forall depth s pairs, 2 * length s + 2 <= fuel ->
                         progress (JSONObject f m fuel depth s pairs) s).
Proof.
  induction fuel as [|fuel (IHscan & IHarr & IHobj)].
  - repeat split; intros; lia.
  - repeat split.
    + (* scan_once *)
      intros depth s Hf.
      destruct s as [|c r]; [exact I|]. rewrite scan_once_cons.
      destruct (ord c =? 34).
      { pose proof (scanstring_progress r []) as P.
        destruct (scanstring r []) as [[str rest]| | | |]; simpl in *; auto;
          try lia; apply errmsg_progress. }
      destruct (ord c =? 123).
      { destruct depth as [|depth]; [exact I|].
        pose proof (skip_ws_length r) as L.
        destruct (skip_ws r) as [|c1 r1]; [apply errmsg_progress|].
        destruct (ord c1 =? 125); [simpl in *; lia|].
        destruct (ord c1 =? 34); [|apply errmsg_progress].
        eapply progress_weaken; [apply IHobj|]; simpl in *; lia. }
      destruct (ord c =? 91).
      { destruct depth as [|depth]; [exact I|].
        pose proof (skip_ws_length r) as L.
        destruct (skip_ws r) as [|c1 r1].
        - eapply progress_weaken; [apply IHarr|]; simpl in *; lia.
        - destruct (ord c1 =? 93); [simpl in *; lia|].
          eapply progress_weaken; [apply IHarr|]; simpl in *; lia. }
      apply scan_atom_progress.
    + (* JSONArray *)
      intros depth s values Hf. rewrite JSONArray_step.
      assert (P : progress (scan_once f m fuel depth s) s) by (apply IHscan; lia).
      destruct (scan_once f m fuel depth s) as [[value rest]| | | |]; simpl in P; auto.
      pose proof (skip_ws_length rest) as L.
      destruct (skip_ws rest) as [|c r]; [apply errmsg_progress|].
      destruct (ord c =? 93); [simpl in *; lia|].
      destruct (ord c =? 44); [|apply errmsg_progress].
      pose proof (skip_ws_length r) as L'.
      eapply progress_weaken; [apply IHarr|]; simpl in *; lia.
    + (* JSONObject *)
      intros depth s pairs Hf. rewrite JSONObject_step.
      pose proof (scanstring_progress s []) as P.
      destruct (scanstring s []) as [[key rest]| | | |]; simpl in P; auto;
        [|apply errmsg_progress].
      pose proof (skip_ws_length rest) as L.
      destruct (skip_ws rest) as [|c r]; [apply errmsg_progress|].
      destruct (ord c =? 58); [|apply errmsg_progress].
      pose proof (skip_ws_length r) as L1.
      assert (P1 : progress (scan_once f m fuel depth (skip_ws r)) (skip_ws r))
        by (apply IHscan; simpl in *; lia).
      destruct (scan_once f m fuel depth (skip_ws r)) as [[value rest1]| | | |];
        simpl in P1; auto.
      pose proof (skip_ws_length rest1) as L2.
      destruct (skip_ws rest1) as [|c1 r1]; [apply errmsg_progress|].
      destruct (ord c1 =? 125); [simpl in *; lia|].
      destruct (ord c1 =? 44); [|apply errmsg_progress].
      pose proof (skip_ws_length r1) as L3.
      destruct (skip_ws r1) as [|c2 r2]; [apply errmsg_progress|].
      destruct (ord c2 =? 34); [|apply errmsg_progress].
      eapply progress_weaken; [apply IHobj|]; simpl in *; lia.
Qed.

(** [loads] never runs out of fuel. *)
Lemma loads_answers (f m depth : nat) (s : list ascii) :
  loads f m depth s <> OutOfFuel.
Proof.
  unfold loads. destruct (starts_with_bom s); [discriminate|].
  pose proof (proj1 (scanners_progress f m (enough (skip_ws s))) depth (skip_ws s)) as P.
  unfold enough in *. specialize (P ltac:(lia)).
  destruct (scan_once _ _ _ _ _) as [[obj rest]| | | |]; simpl in P;
    try discriminate; [|contradiction].
  destruct (skip_ws rest); discriminate.
Qed.

End JsonFacts.

(** ** The limits of the interpreter *)

Module JsonLimits.
Import Json JsonFacts.

Section Measure.
Variable mu : list ascii -> nat.
Hypothesis mu_cons : forall c r, mu r <= mu (c :: r).

Lemma mu_app (p s : list ascii) : mu s <= mu (p ++ s).
Proof.
  induction p as [|c p IH]; simpl; [lia|].
  pose proof (mu_cons c (p ++ s)). lia.
Qed.

Lemma skip_ws_mu (s : list ascii) : mu (skip_ws s) <= mu s.
Proof.
  induction s as [|c r IH]; simpl; [lia|].
  destruct (is_ws c); [|lia]. pose proof (mu_cons c r). lia.
Qed.

Lemma scanstring_mu_le (n : nat) :
  forall s acc, length s <= n -> bounded mu (scanstring s acc) s.
Proof.
  induction n as [|n IH]; intros s acc Hn.
  - destruct s; simpl in *; [exact I | lia].
  - destruct s as [|c r]; [exact I|]. simpl in Hn.
    apply scanstring_cases; [apply mu_cons | intros; exact I |].
    intros t acc' Ht [p ->]. specialize (IH t acc' ltac:(lia)).
    unfold bounded in *. destruct (scanstring t acc') as [[? rest]| | | |]; auto.
    pose proof (mu_app p t). pose proof (mu_cons c (p ++ t)). lia.
Qed.

Lemma scanstring_mu (s acc : list ascii) : bounded mu (scanstring s acc) s.
Proof. apply (scanstring_mu_le (length s)). lia. Qed.

Lemma span_digits_mu (s : list ascii) : mu (snd (span_digits s)) <= mu s.
Proof.
  induction s as [|c r IH]; simpl; [lia|].
  destruct (is_digit c); simpl; [|lia].
  pose proof (mu_cons c r). destruct (span_digits r); simpl in *; lia.
Qed.

Lemma match_integer_mu (s lexeme rest : list ascii) :
  match_integer s = Some (lexeme, rest) -> mu rest <= mu s.
Proof.
  unfold match_integer.
  assert (digits : forall c r lx rs,
             (if ord c =? 48 then Some (lx ++ [c], r)
              else if is_digit c
                   then let '(ds, rest0) := span_digits (c :: r) in Some (lx ++ ds, rest0)
                   else None) = Some (lexeme, rs) ->
             mu rs <= mu (c :: r)).
  { intros c r lx rs. destruct (ord c =? 48).
    - intros E; injection E as _ <-. apply mu_cons.
    - destruct (is_digit c) eqn:D; [|discriminate].
      pose proof (span_digits_mu (c :: r)) as L.
      destruct (span_digits (c :: r)) as [ds rest0]; simpl in L.
      intros E; injection E as _ <-. exact L. }
  destruct s as [|c r]; [discriminate|].
  destruct (ord c =? 45).
  - destruct r as [|c' r']; [discriminate|]. intros E.
    apply digits in E. pose proof (mu_cons c (c' :: r')). lia.
  - apply digits.
Qed.

Lemma match_frac_mu (s lexeme rest : list ascii) :
  match_frac s = Some (lexeme, rest) -> mu rest <= mu s.
Proof.
  unfold match_frac. destruct s as [|c r]; [discriminate|].
  destruct (ord c =? 46); [|discriminate].
  pose proof (span_digits_mu r) as L. pose proof (mu_cons c r).
  destruct (span_digits r) as [[|d ds] rest0]; [discriminate|].
  intros E; injection E as _ <-. simpl in *; lia.
Qed.

Lemma match_exp_mu (s lexeme rest : list ascii) :
  match_exp s = Some (lexeme, rest) -> mu rest <= mu s.
Proof.
  unfold match_exp. destruct s as [|e r]; [discriminate|].
  destruct ((ord e =? 101) || (ord e =? 69)); [|discriminate].
  pose proof (mu_cons e r).
  destruct r as [|c r']; [discriminate|].
  pose proof (mu_cons c r').
  destruct ((ord c =? 43) || (ord c =? 45)).
  - pose proof (span_digits_mu r') as L.
    destruct (span_digits r') as [[|? ?] ?]; [discriminate|].
    intros E; injection E as _ <-; simpl in *; lia.
  - pose proof (span_digits_mu (c :: r')) as L.
    destruct (span_digits (c :: r')) as [[|? ?] ?]; [discriminate|].
    intros E; injection E as _ <-; simpl in *; lia.
Qed.

Lemma match_number_mu (s : list ascii) (v : pyobj) (rest : list ascii) :
  match_number s = Some (v, rest) -> mu rest <= mu s.
Proof.
  unfold match_number.
  destruct (match_integer s) as [[integer r0]|] eqn:EI; [|discriminate].
  apply match_integer_mu in EI.
  assert (L1 : mu (snd match match_frac r0 with
                       | Some (f, r) => (f, r) | None => ([], r0) end)
               <= mu r0).
  { destruct (match_frac r0) as [[f r]|] eqn:EF; simpl; [|lia].
    apply match_frac_mu in EF. lia. }
  destruct (match match_frac r0 with Some (f, r) => (f, r) | None => ([], r0) end)
    as [frac r1]; simpl in L1.
  assert (L2 : mu (snd match match_exp r1 with
                       | Some (e, r) => (e, r) | None => ([], r1) end)
               <= mu r1).
  { destruct (match_exp r1) as [[e r]|] eqn:EE; simpl; [|lia].
    apply match_exp_mu in EE. lia. }
  destruct (match match_exp r1 with Some (e, r) => (e, r) | None => ([], r1) end)
    as [exp r2]; simpl in L2.
  destruct frac, exp; intros E; injection E as _ <-; lia.
Qed.

Lemma after_word_mu (word s rest : list ascii) :
  after_word word s = Some rest -> mu rest <= mu s.
Proof.
  revert s; induction word as [|w word IH]; intros s; simpl.
  - intros E; injection E as <-. lia.
  - destruct s as [|c r]; [discriminate|].
    destruct (Ascii.eqb w c); [|discriminate].
    intros E. apply IH in E. pose proof (mu_cons c r). lia.
Qed.

Lemma scan_atom_mu (m : nat) (s : list ascii) : bounded mu (scan_atom m s) s.
Proof.
  unfold scan_atom, literal.
  repeat match goal with
         | |- context [after_word ?w s] =>
             let E := fresh "E" in
             destruct (after_word w s) eqn:E;
             [apply after_word_mu in E; exact E|]
         | |- context [match_number s] =>
             let E := fresh "E" in
             destruct (match_number s) as [[? ?]|] eqn:E;
             [apply match_number_mu in E;
              destruct (_ && _); simpl; [exact I | exact E]|]
         end.
  exact I.
Qed.

Lemma bounded_weaken {A} (x : scan (A * list ascii)) (s s' : list ascii) :
  bounded mu x s -> mu s <= mu s' -> bounded mu x s'.
Proof. destruct x as [[? ?]| | | |]; simpl; auto; lia. Qed.

Lemma errmsg_mu {A} (f depth : nat) (msg : string) (s : list ascii) :
  bounded mu (@errmsg f (A * list ascii) depth msg) s.
Proof. unfold errmsg. destruct (depth <? f); exact I. Qed.

(** What a scanner leaves is part of what it was given. *)
Lemma scanners_mu (f m fuel : nat) :
  (forall depth s, bounded mu (scan_once f m fuel depth s) s) /\
  (forall depth s values, bounded mu (JSONArray f m fuel depth s values) s) /\
  (forall depth s pairs, bounded mu (JSONObject f m fuel depth s pairs) s).
Proof.
  induction fuel as [|fuel (IHscan & IHarr & IHobj)].
  - repeat split; intros; exact I.
  - repeat split.
    + intros depth s.
      destruct s as [|c r]; [exact I|]. rewrite scan_once_cons.
      pose proof (mu_cons c r) as Hc.
      destruct (ord c =? 34).
      { pose proof (scanstring_mu r []) as P.
        destruct (scanstring r []) as [[str rest]| | | |]; simpl in *; auto;
          try lia; apply errmsg_mu. }
      destruct (ord c =? 123).
      { destruct depth as [|depth]; [exact I|].
        pose proof (skip_ws_mu r) as L.
        destruct (skip_ws r) as [|c1 r1]; [apply errmsg_mu|].
        pose proof (mu_cons c1 r1).
        destruct (ord c1 =? 125); [simpl in *; lia|].
        destruct (ord c1 =? 34); [|apply errmsg_mu].
        eapply bounded_weaken; [apply IHobj|]; lia. }
      destruct (ord c =? 91).
      { destruct depth as [|depth]; [exact I|].
        pose proof (skip_ws_mu r) as L.
        destruct (skip_ws r) as [|c1 r1].
        - eapply bounded_weaken; [apply IHarr|]; lia.
        - pose proof (mu_cons c1 r1).
          destruct (ord c1 =? 93); [simpl in *; lia|].
          eapply bounded_weaken; [apply IHarr|]; lia. }
      apply scan_atom_mu.
    + intros depth s values. rewrite JSONArray_step.
      pose proof (IHscan depth s) as P.
      destruct (scan_once f m fuel depth s) as [[value rest]| | | |]; simpl in P; auto.
      pose proof (skip_ws_mu rest) as L.
      destruct (skip_ws rest) as [|c r]; [apply errmsg_mu|].
      pose proof (mu_cons c r).
      destruct (ord c =? 93); [simpl in *; lia|].
      destruct (ord c =? 44); [|apply errmsg_mu].
      pose proof (skip_ws_mu r) as L'.
      eapply bounded_weaken; [apply IHarr|]; lia.
    + intros depth s pairs. rewrite JSONObject_step.
      pose proof (scanstring_mu s []) as P.
      destruct (scanstring s []) as [[key rest]| | | |]; simpl in P; auto;
        [|apply errmsg_mu].
      pose proof (skip_ws_mu rest) as L.
      destruct (skip_ws rest) as [|c r]; [apply errmsg_mu|].
      pose proof (mu_cons c r).
      destruct (ord c =? 58); [|apply errmsg_mu].
      pose proof (skip_ws_mu r) as L1.
      pose proof (IHscan depth (skip_ws r)) as P1.
      destruct (scan_once f m fuel depth (skip_ws r)) as [[value rest1]| | | |];
        simpl in P1; auto.
      pose proof (skip_ws_mu rest1) as L2.
      destruct (skip_ws rest1) as [|c1 r1]; [apply errmsg_mu|].
      pose proof (mu_cons c1 r1).
      destruct (ord c1 =? 125); [simpl in *; lia|].
      destruct (ord c1 =? 44); [|apply errmsg_mu].
      pose proof (skip_ws_mu r1) as L3.
      destruct (skip_ws r1) as [|c2 r2]; [apply errmsg_mu|].
      pose proof (mu_cons c2 r2).
      destruct (ord c2 =? 34); [|apply errmsg_mu].
      eapply bounded_weaken; [apply IHobj|]; lia.
Qed.
End Measure.

Lemma count_open_cons (c : ascii) (r : list ascii) :
  count_open r <= count_open (c :: r).
Proof. unfold count_open. simpl. destruct (opens c); simpl; lia. Qed.

Lemma max_digit_run_cons (c : ascii) (r : list ascii) :
  max_digit_run r <= max_digit_run (c :: r).
Proof. cbn [max_digit_run]. apply Nat.le_max_r. Qed.

Lemma count_open_length (s : list ascii) : count_open s <= length s.
Proof. apply filter_length_le. Qed.

Lemma errmsg_room {A} (f depth : nat) (msg : string) :
  f <= depth -> @errmsg f A depth msg = Failed msg.
Proof.
  intros Hle. unfold errmsg.
  destruct (Nat.ltb_spec depth f); [lia | reflexivity].
Qed.

Lemma opens_open (c : ascii) (r : list ascii) :
  (ord c =? 91) || (ord c =? 123) = true -> count_open (c :: r) = S (count_open r).
Proof. intros E. unfold count_open. simpl. unfold opens. rewrite E. reflexivity. Qed.

(** With room for every bracket and brace of the text and for building
    an error on top, no scanner runs out of room. *)
Lemma scanners_room (f m fuel : nat) :
  (forall depth s, count_open s + f <= depth ->
                   scan_once f m fuel depth s <> TooDeep) /\
  (forall depth s values, count_open s + f <= depth ->
                          JSONArray f m fuel depth s values <> TooDeep) /\
  (forall depth s pairs, count_open s + f <= depth ->
                         JSONObject f m fuel depth s pairs <> TooDeep).
Proof.
  induction fuel as [|fuel (IHscan & IHarr & IHobj)].
  - repeat split; intros; discriminate.
  - repeat split.
    + intros depth s Hd.
      destruct s as [|c r]; [discriminate|]. rewrite scan_once_cons.
      pose proof (count_open_cons c r) as Hc.
      destruct (ord c =? 34).
      { pose proof (scanstring_settled r []) as P.
        destruct (scanstring r []) as [[str rest]| | | |]; try discriminate.
        rewrite errmsg_room by lia. discriminate. }
      destruct (ord c =? 123) eqn:E123.
      { rewrite (opens_open c r) in Hd by (rewrite E123; apply orb_true_r).
        destruct depth as [|depth]; [lia|].
        pose proof (skip_ws_mu _ count_open_cons r) as L.
        destruct (skip_ws r) as [|c1 r1]; [rewrite errmsg_room by lia; discriminate|].
        pose proof (count_open_cons c1 r1).
        destruct (ord c1 =? 125); [discriminate|].
        destruct (ord c1 =? 34); [|rewrite errmsg_room by lia; discriminate].
        apply IHobj. lia. }
      destruct (ord c =? 91) eqn:E91.
      { rewrite (opens_open c r) in Hd by (rewrite E91; reflexivity).
        destruct depth as [|depth]; [lia|].
        pose proof (skip_ws_mu _ count_open_cons r) as L.
        destruct (skip_ws r) as [|c1 r1].
        - apply IHarr. simpl in *. lia.
        - destruct (ord c1 =? 93); [discriminate|].
          apply IHarr. lia. }
      unfold scan_atom.
      repeat match goal with
             | |- context [literal ?w ?x] => destruct (literal w x); try discriminate
             | |- context [match_number ?x] =>
                 destruct (match_number x); [destruct (_ && _); discriminate|]
             end.
      all: discriminate.
    + intros depth s values Hd. rewrite JSONArray_step.
      pose proof (IHscan depth s Hd) as P.
      pose proof (proj1 (scanners_mu _ count_open_cons f m fuel) depth s) as B.
      destruct (scan_once f m fuel depth s) as [[value rest]| | | |];
        try discriminate; [|contradiction].
      simpl in B.
      pose proof (skip_ws_mu _ count_open_cons rest) as L.
      destruct (skip_ws rest) as [|c r]; [rewrite errmsg_room by lia; discriminate|].
      pose proof (count_open_cons c r).
      destruct (ord c =? 93); [discriminate|].
      destruct (ord c =? 44); [|rewrite errmsg_room by lia; discriminate].
      pose proof (skip_ws_mu _ count_open_cons r) as L'.
      apply IHarr. lia.
    + intros depth s pairs Hd. rewrite JSONObject_step.
      pose proof (scanstring_settled s []) as P.
      pose proof (scanstring_mu _ count_open_cons s []) as B.
      destruct (scanstring s []) as [[key rest]| | | |]; try discriminate;
        [|rewrite errmsg_room by lia; discriminate].
      simpl in B.
      pose proof (skip_ws_mu _ count_open_cons rest) as L.
      destruct (skip_ws rest) as [|c r]; [rewrite errmsg_room by lia; discriminate|].
      pose proof (count_open_cons c r).
      destruct (ord c =? 58); [|rewrite errmsg_room by lia; discriminate].
      pose proof (skip_ws_mu _ count_open_cons r) as L1.
      pose proof (IHscan depth (skip_ws r) ltac:(lia)) as P1.
      pose proof (proj1 (scanners_mu _ count_open_cons f m fuel) depth (skip_ws r)) as B1.
      destruct (scan_once f m fuel depth (skip_ws r)) as [[value rest1]| | | |];
        try discriminate; [|contradiction].
      simpl in B1.
      pose proof (skip_ws_mu _ count_open_cons rest1) as L2.
      destruct (skip_ws rest1) as [|c1 r1]; [rewrite errmsg_room by lia; discriminate|].
      pose proof (count_open_cons c1 r1).
      destruct (ord c1 =? 125); [discriminate|].
      destruct (ord c1 =? 44); [|rewrite errmsg_room by lia; discriminate].
      pose proof (skip_ws_mu _ count_open_cons r1) as L3.
      destruct (skip_ws r1) as [|c2 r2]; [rewrite errmsg_room by lia; discriminate|].
      pose proof (count_open_cons c2 r2).
      destruct (ord c2 =? 34); [|rewrite errmsg_room by lia; discriminate].
      apply IHobj. lia.
Qed.

(** The digits of a text. *)
Lemma span_digits_digits (s : list ascii) :
  filter is_digit (fst (span_digits s)) = fst (span_digits s).
Proof.
  induction s as [|c r IH]; simpl; [reflexivity|].
  destruct (is_digit c) eqn:D; [|reflexivity].
  destruct (span_digits r) as [ds rest]; simpl in *. rewrite D, IH. reflexivity.
Qed.

Lemma digit_run_le (s : list ascii) : digit_run s <= max_digit_run s.
Proof. destruct s; [reflexivity|]. cbn [max_digit_run]. apply Nat.le_max_l. Qed.

Lemma too_long_le (m n n' : nat) :
  n' <= n -> too_long m n = false -> too_long m n' = false.
Proof.
  unfold too_long. intros Hle.
  destruct (Nat.ltb_spec 0 m); simpl; [|reflexivity].
  destruct (Nat.ltb_spec m n); [discriminate|].
  destruct (Nat.ltb_spec m n'); [lia | reflexivity].
Qed.

Lemma digits_after_sign (c : ascii) (r : list ascii) :
  match (if ord c =? 48 then Some ([c], r)
         else if is_digit c
              then let '(ds, rest0) := span_digits (c :: r) in Some (ds, rest0)
              else None) with
  | Some (ds, _) => length (filter is_digit ds) <= digit_run (c :: r)
  | None => True
  end.
Proof.
  unfold digit_run.
  destruct (ord c =? 48) eqn:E0.
  - apply Nat.eqb_eq in E0.
    assert (D : is_digit c = true) by (unfold is_digit; rewrite E0; reflexivity).
    simpl. rewrite D. destruct (span_digits r); simpl. lia.
  - destruct (is_digit c) eqn:D; [|exact I].
    pose proof (span_digits_digits (c :: r)) as F.
    destruct (span_digits (c :: r)) as [ds rest0]; simpl in *. rewrite F. lia.
Qed.

Lemma int_digits_le (s : list ascii) : int_digits s <= max_digit_run s.
Proof.
  unfold int_digits, match_integer.
  destruct s as [|c r]; [simpl; lia|].
  destruct (ord c =? 45) eqn:E.
  - destruct r as [|c' r']; [simpl; lia|].
    pose proof (digits_after_sign c' r') as P.
    pose proof (digit_run_le (c' :: r')).
    pose proof (max_digit_run_cons c (c' :: r')).
    assert (Dc : is_digit c = false).
    { apply Nat.eqb_eq in E. unfold is_digit. rewrite E. reflexivity. }
    destruct (ord c' =? 48).
    + simpl in *. rewrite Dc. lia.
    + destruct (is_digit c'); [|lia].
      destruct (span_digits (c' :: r')) as [ds rest0].
      cbn [app filter]. rewrite Dc. lia.
  - pose proof (digits_after_sign c r) as P.
    pose proof (digit_run_le (c :: r)).
    destruct (ord c =? 48).
    + simpl in *. lia.
    + destruct (is_digit c); [|lia].
      destruct (span_digits (c :: r)) as [ds rest0].
      cbn [app]. lia.
Qed.

(** With no run of digits longer than [int] converts, no scanner meets
    an integer that is. *)
Lemma scanners_digits (f m fuel : nat) :
  (forall depth s, too_long m (max_digit_run s) = false ->
                   scan_once f m fuel depth s <> TooLong) /\
  (forall depth s values, too_long m (max_digit_run s) = false ->
                          JSONArray f m fuel depth s values <> TooLong) /\
  (forall depth s pairs, too_long m (max_digit_run s) = false ->
                         JSONObject f m fuel depth s pairs <> TooLong).
Proof.
  assert (mono : forall s s', max_digit_run s' <= max_digit_run s ->
                   too_long m (max_digit_run s) = false ->
                   too_long m (max_digit_run s') = false).
  { intros s s' Hle. apply too_long_le, Hle. }
  assert (err : forall A depth msg, @errmsg f A depth msg <> TooLong).
  { intros A depth msg. unfold errmsg. destruct (depth <? f); discriminate. }
  induction fuel as [|fuel (IHscan & IHarr & IHobj)].
  - repeat split; intros; discriminate.
  - repeat split.
    + intros depth s Hd.
      destruct s as [|c r]; [discriminate|]. rewrite scan_once_cons.
      pose proof (max_digit_run_cons c r) as Hc.
      destruct (ord c =? 34).
      { pose proof (scanstring_settled r []) as P.
        destruct (scanstring r []) as [[str rest]| | | |]; try discriminate.
        apply err. }
      destruct (ord c =? 123).
      { destruct depth as [|depth]; [discriminate|].
        pose proof (skip_ws_mu _ max_digit_run_cons r) as L.
        destruct (skip_ws r) as [|c1 r1]; [apply err|].
        pose proof (max_digit_run_cons c1 r1).
        destruct (ord c1 =? 125); [discriminate|].
        destruct (ord c1 =? 34); [|apply err].
        apply IHobj. refine (mono _ _ _ Hd); lia. }
      destruct (ord c =? 91).
      { destruct depth as [|depth]; [discriminate|].
        pose proof (skip_ws_mu _ max_digit_run_cons r) as L.
        destruct (skip_ws r) as [|c1 r1].
        - apply IHarr. unfold too_long. simpl. apply andb_false_r.
        - destruct (ord c1 =? 93); [discriminate|].
          apply IHarr. refine (mono _ _ _ Hd); lia. }
      unfold scan_atom.
      destruct (literal "null" _); [discriminate|].
      destruct (literal "true" _); [discriminate|].
      destruct (literal "false" _); [discriminate|].
      destruct (match_number (c :: r)) as [res|].
      * rewrite (too_long_le m _ _ (int_digits_le (c :: r)) Hd), andb_false_r.
        discriminate.
      * destruct (literal "NaN" _); [discriminate|].
        destruct (literal "Infinity" _); [discriminate|].
        destruct (literal "-Infinity" _); discriminate.
    + intros depth s values Hd. rewrite JSONArray_step.
      pose proof (IHscan depth s Hd) as P.
      pose proof (proj1 (scanners_mu _ max_digit_run_cons f m fuel) depth s) as B.
      destruct (scan_once f m fuel depth s) as [[value rest]| | | |];
        try discriminate; [|contradiction].
      simpl in B.
      pose proof (skip_ws_mu _ max_digit_run_cons rest) as L.
      destruct (skip_ws rest) as [|c r]; [apply err|].
      pose proof (max_digit_run_cons c r).
      destruct (ord c =? 93); [discriminate|].
      destruct (ord c =? 44); [|apply err].
      pose proof (skip_ws_mu _ max_digit_run_cons r) as L'.
      apply IHarr. refine (mono _ _ _ Hd); lia.
    + intros depth s pairs Hd. rewrite JSONObject_step.
      pose proof (scanstring_settled s []) as P.
      pose proof (scanstring_mu _ max_digit_run_cons s []) as B.
      destruct (scanstring s []) as [[key rest]| | | |]; try discriminate;
        [|apply err].
      simpl in B.
      pose proof (skip_ws_mu _ max_digit_run_cons rest) as L.
      destruct (skip_ws rest) as [|c r]; [apply err|].
      pose proof (max_digit_run_cons c r).
      destruct (ord c =? 58); [|apply err].
      pose proof (skip_ws_mu _ max_digit_run_cons r) as L1.
      assert (P1 : scan_once f m fuel depth (skip_ws r) <> TooLong)
        by (apply IHscan; refine (mono _ _ _ Hd); lia).
      pose proof (proj1 (scanners_mu _ max_digit_run_cons f m fuel) depth (skip_ws r)) as B1.
      destruct (scan_once f m fuel depth (skip_ws r)) as [[value rest1]| | | |];
        try discriminate; [|contradiction].
      simpl in B1.
      pose proof (skip_ws_mu _ max_digit_run_cons rest1) as L2.
      destruct (skip_ws rest1) as [|c1 r1]; [apply err|].
      pose proof (max_digit_run_cons c1 r1).
      destruct (ord c1 =? 125); [discriminate|].
      destruct (ord c1 =? 44); [|apply err].
      pose proof (skip_ws_mu _ max_digit_run_cons r1) as L3.
      destruct (skip_ws r1) as [|c2 r2]; [apply err|].
      pose proof (max_digit_run_cons c2 r2).
      destruct (ord c2 =? 34); [|apply err].
      apply IHobj. refine (mono _ _ _ Hd); lia.
Qed.

(** ** More room changes no answer *)

Section Relax.
Variables f m f' m' : nat.
Hypothesis frames_le : f' <= f.
Hypothesis digits_le : forall n, too_long m' n = true -> too_long m n = true.

Lemma errmsg_relax {A} (depth depth' : nat) (msg : string) :
  depth <= depth' ->
  settled (@errmsg f A depth msg) = true ->
  @errmsg f' A depth' msg = errmsg f depth msg.
Proof.
  intros Hle. unfold errmsg.
  destruct (Nat.ltb_spec depth f); [discriminate|]. intros _.
  destruct (Nat.ltb_spec depth' f'); [lia | reflexivity].
Qed.

Lemma scan_atom_relax (s : list ascii) :
  settled (scan_atom m s) = true -> scan_atom m' s = scan_atom m s.
Proof.
  unfold scan_atom.
  destruct (literal "null" s); [reflexivity|].
  destruct (literal "true" s); [reflexivity|].
  destruct (literal "false" s); [reflexivity|].
  destruct (match_number s) as [res|]; [|reflexivity].
  destruct (is_int (fst res)); [|reflexivity]. cbn [andb].
  destruct (too_long m (int_digits s)) eqn:E; [discriminate|]. intros _.
  destruct (too_long m' (int_digits s)) eqn:E'; [|reflexivity].
  apply digits_le in E'. congruence.
Qed.

(** An answer that is a value or the failure of a text that is not JSON
    is the answer with more fuel, more room, cheaper errors and a higher
    limit on digits. *)
Lemma scanners_relax (fuel : nat) :
  (forall fuel' depth depth' s,
      fuel <= fuel' -> depth <= depth' ->
      settled (scan_once f m fuel depth s) = true ->
      scan_once f' m' fuel' depth' s = scan_once f m fuel depth s) /\
  (forall fuel' depth depth' s values,
      fuel <= fuel' -> depth <= depth' ->
      settled (JSONArray f m fuel depth s values) = true ->
      JSONArray f' m' fuel' depth' s values = JSONArray f m fuel depth s values) /\
  (forall fuel' depth depth' s pairs,
      fuel <= fuel' -> depth <= depth' ->
      settled (JSONObject f m fuel depth s pairs) = true ->
      JSONObject f' m' fuel' depth' s pairs = JSONObject f m fuel depth s pairs).
Proof.
  induction fuel as [|fuel (IHscan & IHarr & IHobj)].
  - repeat split; intros; discriminate.
  - split; [|split].
    + intros [|fuel'] depth depth' s Hle Hd H; [lia|].
      assert (Hf : fuel <= fuel') by lia.
      destruct s as [|c r]; [reflexivity|].
      rewrite scan_once_cons in H. rewrite (scan_once_cons f m), (scan_once_cons f' m').
      destruct (ord c =? 34).
      { destruct (scanstring r []) as [[str rest]| | | |]; try reflexivity.
        apply errmsg_relax; assumption. }
      destruct (ord c =? 123).
      { destruct depth as [|depth]; [discriminate|].
        destruct depth' as [|depth']; [lia|].
        assert (Hd' : depth <= depth') by lia.
        destruct (skip_ws r) as [|c1 r1]; [apply errmsg_relax; assumption|].
        destruct (ord c1 =? 125); [reflexivity|].
        destruct (ord c1 =? 34); [|apply errmsg_relax; assumption].
        apply IHobj; assumption. }
      destruct (ord c =? 91).
      { destruct depth as [|depth]; [discriminate|].
        destruct depth' as [|depth']; [lia|].
        assert (Hd' : depth <= depth') by lia.
        destruct (skip_ws r) as [|c1 r1].
        - apply IHarr; assumption.
        - destruct (ord c1 =? 93); [reflexivity|]. apply IHarr; assumption. }
      apply scan_atom_relax, H.
    + intros [|fuel'] depth depth' s values Hle Hd H; [lia|].
      assert (Hf : fuel <= fuel') by lia.
      rewrite JSONArray_step in H. rewrite (JSONArray_step f m), (JSONArray_step f' m').
      assert (Es : settled (scan_once f m fuel depth s) = true)
        by (destruct (scan_once f m fuel depth s); auto).
      rewrite (IHscan _ _ _ _ Hf Hd Es).
      destruct (scan_once f m fuel depth s) as [[value rest0]| | | |];
        try reflexivity.
      destruct (skip_ws rest0) as [|c r]; [apply errmsg_relax; assumption|].
      destruct (ord c =? 93); [reflexivity|].
      destruct (ord c =? 44); [|apply errmsg_relax; assumption].
      apply IHarr; assumption.
    + intros [|fuel'] depth depth' s pairs Hle Hd H; [lia|].
      assert (Hf : fuel <= fuel') by lia.
      rewrite JSONObject_step in H. rewrite (JSONObject_step f m), (JSONObject_step f' m').
      destruct (scanstring s []) as [[key rest0]| | | |]; try reflexivity;
        [|apply errmsg_relax; assumption].
      destruct (skip_ws rest0) as [|c r]; [apply errmsg_relax; assumption|].
      destruct (ord c =? 58); [|apply errmsg_relax; assumption].
      assert (Es : settled (scan_once f m fuel depth (skip_ws r)) = true)
        by (destruct (scan_once f m fuel depth (skip_ws r)); auto).
      rewrite (IHscan _ _ _ _ Hf Hd Es).
      destruct (scan_once f m fuel depth (skip_ws r)) as [[value rest1]| | | |];
        try reflexivity.
      destruct (skip_ws rest1) as [|c1 r1]; [apply errmsg_relax; assumption|].
      destruct (ord c1 =? 125); [reflexivity|].
      destruct (ord c1 =? 44); [|apply errmsg_relax; assumption].
      destruct (skip_ws r1) as [|c2 r2]; [apply errmsg_relax; assumption|].
      destruct (ord c2 =? 34); [|apply errmsg_relax; assumption].
      apply IHobj; assumption.
Qed.

Lemma loads_relax (depth depth' : nat) (s : list ascii) :
  depth <= depth' ->
  settled (loads f m depth s) = true ->
  loads f' m' depth' s = loads f m depth s.
Proof.
  intros Hd. unfold loads. destruct (starts_with_bom s); [reflexivity|].
  cbv zeta. intros H.
  assert (Es : settled (scan_once f m (enough (skip_ws s)) depth (skip_ws s)) = true)
    by (destruct (scan_once f m _ depth _); auto).
  rewrite (proj1 (scanners_relax _) _ _ _ _ (le_n _) Hd Es). reflexivity.
Qed.
End Relax.

(** A text within the limits gets the answer of the grammar. *)
Lemma loads_settled (f m depth : nat) (s : list ascii) :
  count_open s + f <= depth ->
  too_long m (max_digit_run s) = false ->
  settled (loads f m depth s) = true.
Proof.
  intros Hd Hm. unfold loads. destruct (starts_with_bom s); [reflexivity|].
  cbv zeta.
  pose proof (skip_ws_mu _ count_open_cons s) as L1.
  pose proof (skip_ws_mu _ max_digit_run_cons s) as L2.
  pose proof (proj1 (scanners_progress f m (enough (skip_ws s))) depth (skip_ws s)) as P.
  unfold enough in *. specialize (P ltac:(lia)).
  pose proof (proj1 (scanners_room f m (2 * length (skip_ws s) + 1)) depth (skip_ws s)
                ltac:(lia)) as R.
  pose proof (proj1 (scanners_digits f m (2 * length (skip_ws s) + 1)) depth (skip_ws s)
                (too_long_le _ _ _ L2 Hm)) as G.
  destruct (scan_once _ _ _ _ _) as [[obj rest]| | | |]; simpl in P;
    try contradiction; [|reflexivity].
  destruct (skip_ws rest); reflexivity.
Qed.

Lemma decode_settled (s : list ascii) : settled (decode s) = true.
Proof.
  apply loads_settled.
  - pose proof (count_open_length s). lia.
  - reflexivity.
Qed.

(** An answer of [loads] that is a value or the failure of a text that
    is not JSON is the answer of the grammar. *)
Lemma loads_decode (f m depth : nat) (s : list ascii) :
  settled (loads f m depth s) = true -> decode s = loads f m depth s.
Proof.
  intros H.
  assert (nolimit : forall n, too_long 0 n = true -> too_long m n = true)
    by (intros n E; discriminate).
  assert (nolimit0 : forall n, too_long 0 n = true -> too_long 0 n = true)
    by (intros n E; exact E).
  rewrite <- (loads_relax f m 0 0 ltac:(lia) nolimit depth (Nat.max depth (length s)) s
                ltac:(lia) H).
  symmetry.
  apply (loads_relax 0 0 0 0 ltac:(lia) nolimit0 (length s) (Nat.max depth (length s)) s
           ltac:(lia) (decode_settled s)).
Qed.



(** A value of [loads] is the value of a JSON text. *)
Lemma loads_scanned (f m depth : nat) (s : list ascii) (obj : pyobj) :
  loads f m depth s = Scanned obj -> decode s = Scanned obj.
Proof.
  intros E. rewrite (loads_decode f m depth s) by (rewrite E; reflexivity). exact E.
Qed.

End JsonLimits.

(** ** White space after a JSON text *)

Module JsonWhitespace.
Import Json JsonFacts JsonLimits.

Lemma is_ws_ord (c : ascii) :
  is_ws c = true -> ord c = 32 \/ ord c = 9 \/ ord c = 10 \/ ord c = 13.
Proof.
  unfold is_ws. rewrite !orb_true_iff, !Nat.eqb_eq. tauto.
Qed.

Lemma ws_not (c : ascii) (n : nat) :
  is_ws c = true -> n <> 32 -> n <> 9 -> n <> 10 -> n <> 13 -> (ord c =? n) = false.
Proof.
  intros Hws. apply is_ws_ord in Hws. intros. apply Nat.eqb_neq. lia.
Qed.

Lemma ws_not_digit (c : ascii) : is_ws c = true -> is_digit c = false.
Proof.
  intros Hws. apply is_ws_ord in Hws. unfold is_digit.
  destruct Hws as [-> | [-> | [-> | ->]]]; reflexivity.
Qed.

Lemma ws_not_letter (w c : ascii) :
  is_ws c = true -> is_ws w = false -> Ascii.eqb w c = false.
Proof.
  intros Hc Hw. destruct (Ascii.eqb_spec w c) as [->|]; [congruence | reflexivity].
Qed.

Lemma ws_head (x : ascii) (t : list ascii) :
  forallb is_ws (x :: t) = true -> is_ws x = true /\ forallb is_ws t = true.
Proof. simpl. apply andb_true_iff. Qed.

Lemma skip_ws_tail (s t : list ascii) :
  forallb is_ws t = true ->
  skip_ws (s ++ t) = match skip_ws s with [] => [] | x :: r => x :: r ++ t end.
Proof.
  intros Ht. induction s as [|c r IH]; simpl.
  - induction t as [|x t IHt]; simpl in *; [reflexivity|].
    apply andb_true_iff in Ht. destruct Ht as [Hx Ht]. rewrite Hx. auto.
  - destruct (is_ws c); [exact IH | reflexivity].
Qed.

Lemma span_digits_tail (s t : list ascii) :
  forallb is_ws t = true ->
  span_digits (s ++ t) = (fst (span_digits s), snd (span_digits s) ++ t).
Proof.
  intros Ht. induction s as [|c r IH]; simpl.
  - destruct t as [|x t]; simpl in *; [reflexivity|].
    apply andb_true_iff in Ht. destruct Ht as [Hx _].
    rewrite (ws_not_digit x Hx). reflexivity.
  - destruct (is_digit c); [|reflexivity].
    rewrite IH. destruct (span_digits r); reflexivity.
Qed.

(** What follows the digits of an integer. *)
Lemma integer_digits_tail (sign s t : list ascii) :
  forallb is_ws t = true ->
  match s ++ t with
  | c :: r =>
      if ord c =? 48 then Some (sign ++ [c], r)
      else if is_digit c then
        let '(ds, rest) := span_digits (s ++ t) in Some (sign ++ ds, rest)
      else None
  | [] => None
  end =
  option_map (fun p => (fst p, snd p ++ t))
    match s with
    | c :: r =>
        if ord c =? 48 then Some (sign ++ [c], r)
        else if is_digit c then
          let '(ds, rest) := span_digits s in Some (sign ++ ds, rest)
        else None
    | [] => None
    end.
Proof.
  intros Ht. destruct s as [|c r]; simpl.
  - destruct t as [|x t]; [reflexivity|].
    apply ws_head in Ht. destruct Ht as [Hx _].
    rewrite (ws_not x 48 Hx), (ws_not_digit x Hx) by lia. reflexivity.
  - destruct (ord c =? 48); [reflexivity|].
    destruct (is_digit c) eqn:D; [|reflexivity].
    rewrite (span_digits_tail r t Ht). destruct (span_digits r); reflexivity.
Qed.

Lemma match_integer_tail (s t : list ascii) :
  forallb is_ws t = true ->
  match_integer (s ++ t) =
  option_map (fun p => (fst p, snd p ++ t)) (match_integer s).
Proof.
  intros Ht. unfold match_integer. destruct s as [|c r].
  - simpl app. destruct t as [|x t]; [reflexivity|].
    apply ws_head in Ht. destruct Ht as [Hx _].
    rewrite (ws_not x 45 Hx), (ws_not x 48 Hx), (ws_not_digit x Hx) by lia.
    reflexivity.
  - simpl app. cbv beta iota. destruct (ord c =? 45).
    + exact (integer_digits_tail [c] r t Ht).
    + exact (integer_digits_tail [] (c :: r) t Ht).
Qed.

Lemma match_frac_tail (s t : list ascii) :
  forallb is_ws t = true ->
  match_frac (s ++ t) = option_map (fun p => (fst p, snd p ++ t)) (match_frac s).
Proof.
  intros Ht. unfold match_frac. destruct s as [|c r]; simpl.
  - destruct t as [|x t]; [reflexivity|].
    apply ws_head in Ht. destruct Ht as [Hx _].
    rewrite (ws_not x 46 Hx) by lia. reflexivity.
  - destruct (ord c =? 46); [|reflexivity].
    rewrite (span_digits_tail r t Ht).
    destruct (span_digits r) as [[|d ds] rest]; reflexivity.
Qed.

Lemma match_exp_tail (s t : list ascii) :
  forallb is_ws t = true ->
  match_exp (s ++ t) = option_map (fun p => (fst p, snd p ++ t)) (match_exp s).
Proof.
  intros Ht. unfold match_exp. destruct s as [|e r]; simpl.
  - destruct t as [|x t]; [reflexivity|].
    apply ws_head in Ht. destruct Ht as [Hx _].
    rewrite (ws_not x 101 Hx), (ws_not x 69 Hx) by lia. reflexivity.
  - destruct ((ord e =? 101) || (ord e =? 69)); [|reflexivity].
    destruct r as [|c r']; simpl.
    + destruct t as [|x t]; [reflexivity|].
      pose proof Ht as Ht'. apply ws_head in Ht'. destruct Ht' as [Hx _].
      rewrite (ws_not x 43 Hx), (ws_not x 45 Hx) by lia. simpl.
      rewrite (ws_not_digit x Hx). reflexivity.
    + destruct ((ord c =? 43) || (ord c =? 45)).
      * rewrite (span_digits_tail r' t Ht).
        destruct (span_digits r') as [[|d ds] rest]; reflexivity.
      * change (c :: r' ++ t) with ((c :: r') ++ t).
        rewrite (span_digits_tail (c :: r') t Ht).
        destruct (span_digits (c :: r')) as [[|d ds] rest]; reflexivity.
Qed.

Lemma match_number_tail (s t : list ascii) :
  forallb is_ws t = true ->
  match_number (s ++ t) = option_map (fun p => (fst p, snd p ++ t)) (match_number s).
Proof.
  intros Ht. unfold match_number. rewrite (match_integer_tail s t Ht).
  destruct (match_integer s) as [[integer r0]|]; [|reflexivity]. simpl.
  rewrite (match_frac_tail r0 t Ht).
  destruct (match_frac r0) as [[frac r1]|]; simpl.
  - rewrite (match_exp_tail r1 t Ht).
    destruct (match_exp r1) as [[exp r2]|]; simpl;
      [destruct frac, exp | destruct frac]; reflexivity.
  - rewrite (match_exp_tail r0 t Ht).
    destruct (match_exp r0) as [[exp r2]|]; simpl; [destruct exp|]; reflexivity.
Qed.

Lemma after_word_tail (word s t : list ascii) :
  forallb is_ws t = true ->
  forallb (fun w => negb (is_ws w)) word = true ->
  after_word word (s ++ t) = option_map (fun r => r ++ t) (after_word word s).
Proof.
  intros Ht. revert s. induction word as [|w word IH]; intros s Hw; simpl.
  - reflexivity.
  - simpl in Hw. apply andb_true_iff in Hw. destruct Hw as [Hw Hword].
    destruct s as [|c r]; simpl.
    + destruct t as [|x t]; [reflexivity|].
      apply ws_head in Ht. destruct Ht as [Hx _].
      rewrite (ws_not_letter w x Hx); [reflexivity|].
      destruct (is_ws w); [discriminate | reflexivity].
    + destruct (Ascii.eqb w c); [apply IH, Hword | reflexivity].
Qed.

Lemma literal_tail (word : string) (s t : list ascii) :
  forallb is_ws t = true ->
  forallb (fun w => negb (is_ws w)) (list_ascii_of_string word) = true ->
  literal word (s ++ t) = option_map (fun r => r ++ t) (literal word s).
Proof. intros Ht Hw. apply after_word_tail; assumption. Qed.


Lemma int_digits_tail (s t : list ascii) :
  forallb is_ws t = true -> int_digits (s ++ t) = int_digits s.
Proof.
  intros Ht. unfold int_digits. rewrite (match_integer_tail s t Ht).
  destruct (match_integer s) as [[integer r0]|]; reflexivity.
Qed.

(** An escape that is cut short is not a string. *)
Lemma scanstring_short_escape (b u : ascii) (x acc : list ascii) :
  (ord b =? 92) = true -> (ord u =? 117) = true -> length x < 5 ->
  forall res, scanstring (b :: u :: x) acc <> Scanned res.
Proof.
  intros Eb Eu Hx res. rewrite scanstring_cons, Eb, Eu.
  assert (Eq : (ord b =? 34) = false).
  { apply Nat.eqb_eq in Eb. apply Nat.eqb_neq. lia. }
  rewrite Eq.
  destruct x as [|l1 [|l2 [|l3 [|l4 [|z r3]]]]]; try discriminate.
  simpl in Hx. lia.
Qed.

Lemma scanstring_lone_backslash (b : ascii) (acc : list ascii) :
  (ord b =? 92) = true -> forall res, scanstring [b] acc <> Scanned res.
Proof.
  intros Eb res. rewrite scanstring_cons, Eb.
  assert (Eq : (ord b =? 34) = false).
  { apply Nat.eqb_eq in Eb. apply Nat.eqb_neq. lia. }
  rewrite Eq. discriminate.
Qed.

(** A result with the tail appended to what it left. *)
Lemma scanstring_tail_le (n : nat) (t : list ascii) :
  forallb is_ws t = true ->
  forall s acc str rest,
    length s <= n ->
    scanstring s acc = Scanned (str, rest) ->
    scanstring (s ++ t) acc = Scanned (str, rest ++ t).
Proof.
  intros Ht. induction n as [|n IH]; intros s acc str rest Hn H.
  - destruct s; [discriminate | simpl in Hn; lia].
  - destruct s as [|c r]; [discriminate|].
    simpl in Hn. cbn [app]. rewrite scanstring_cons in H |- *.
    destruct (ord c =? 34); [injection H as <- <-; reflexivity|].
    destruct (ord c =? 92).
    + destruct r as [|e r1]; [discriminate|]. cbn [app].
      destruct (ord e =? 117).
      * destruct r1 as [|h1 [|h2 [|h3 [|h4 [|b r2]]]]]; try discriminate.
        cbn [app]. destruct (hex4 h1 h2 h3 h4) as [uni|]; [|discriminate].
        simpl in Hn. cbv zeta in H |- *.
        assert (single : forall str' rest',
                   scanstring (b :: r2) (rev (utf8 uni) ++ acc) = Scanned (str', rest') ->
                   scanstring (b :: r2 ++ t) (rev (utf8 uni) ++ acc) =
                   Scanned (str', rest' ++ t)).
        { intros str' rest' Hs. apply (IH (b :: r2)); [simpl; lia | exact Hs]. }
        destruct (is_high_surrogate uni); [|apply single, H].
        destruct r2 as [|u x].
        -- (* one character before the tail *)
           specialize (single _ _ H). cbn [app] in single |- *.
           destruct t as [|t1 [|t2 [|t3 [|t4 [|t5 [|t6 t]]]]]]; try exact single.
           destruct (ord b =? 92) eqn:Eb; [|exact single].
           exfalso. exact (scanstring_lone_backslash b _ Eb _ H).
        -- destruct ((ord b =? 92) && (ord u =? 117)) eqn:Ebu.
           ++ (* an escape follows: it is whole before the tail *)
              apply andb_true_iff in Ebu. destruct Ebu as [Eb Eu].
              destruct x as [|l1 [|l2 [|l3 [|l4 [|z r3]]]]];
                try (exfalso;
                     refine (scanstring_short_escape b u _ _ Eb Eu _ _ H);
                     simpl; lia).
              cbn [app] in H |- *. rewrite Eb, Eu. cbn [andb].
              destruct (hex4 l1 l2 l3 l4) as [uni2|]; [|discriminate].
              destruct (is_low_surrogate uni2).
              ** apply (IH (z :: r3)); [simpl in Hn |- *; lia | exact H].
              ** apply (single _ _ H).
           ++ (* no escape follows *)
              assert (H' : scanstring (b :: u :: x) (rev (utf8 uni) ++ acc) =
                           Scanned (str, rest))
                by (destruct x as [|l1 [|l2 [|l3 [|l4 [|z r3]]]]]; exact H).
              specialize (single _ _ H'). cbn [app] in single |- *.
              destruct (x ++ t) as [|l1 [|l2 [|l3 [|l4 [|z r3]]]]];
                try rewrite Ebu; exact single.
      * destruct (escape_char e); [|discriminate].
        apply IH; [simpl in Hn; lia | exact H].
    + destruct (ord c <? 32); [discriminate|].
      apply IH; [lia | exact H].
Qed.

Lemma scanstring_tail (s acc t : list ascii) (str : string) (rest : list ascii) :
  forallb is_ws t = true ->
  scanstring s acc = Scanned (str, rest) ->
  scanstring (s ++ t) acc = Scanned (str, rest ++ t).
Proof. intros Ht. apply (scanstring_tail_le (length s) t Ht). lia. Qed.

Lemma scan_atom_tail (m : nat) (s t : list ascii) (v : pyobj) (rest : list ascii) :
  forallb is_ws t = true ->
  scan_atom m s = Scanned (v, rest) ->
  scan_atom m (s ++ t) = Scanned (v, rest ++ t).
Proof.
  intros Ht. unfold scan_atom.
  rewrite !(fun w H => literal_tail w s t Ht H) by reflexivity.
  rewrite (match_number_tail s t Ht), (int_digits_tail s t Ht).
  destruct (literal "null" s); [intros [= <- <-]; reflexivity|].
  destruct (literal "true" s); [intros [= <- <-]; reflexivity|].
  destruct (literal "false" s); [intros [= <- <-]; reflexivity|].
  destruct (match_number s) as [[v0 r0]|].
  { cbn [option_map fst snd].
    destruct (is_int v0 && too_long m (int_digits s)); [discriminate|].
    intros [= <- <-]; reflexivity. }
  destruct (literal "NaN" s); [intros [= <- <-]; reflexivity|].
  destruct (literal "Infinity" s); [intros [= <- <-]; reflexivity|].
  destruct (literal "-Infinity" s); [intros [= <- <-]; reflexivity|].
  discriminate.
Qed.

(** Nothing is scanned from no input. *)
Lemma scan_once_nil (f m fuel depth : nat) (res : pyobj * list ascii) :
  scan_once f m fuel depth [] <> Scanned res.
Proof. destruct fuel; discriminate. Qed.

Lemma JSONArray_nil (f m fuel depth : nat) (values : list pyobj)
    (res : pyobj * list ascii) :
  JSONArray f m fuel depth [] values <> Scanned res.
Proof.
  destruct fuel; [discriminate|]. rewrite JSONArray_step.
  destruct fuel; discriminate.
Qed.

Lemma errmsg_not_scanned {A} (f depth : nat) (msg : string) (a : A) :
  errmsg f depth msg <> Scanned a.
Proof. unfold errmsg. destruct (depth <? f); discriminate. Qed.

(** A value scanned from a text is scanned from the text followed by
    white space, which is left over with the rest. *)
Lemma scanners_tail (f m : nat) (t : list ascii) (fuel : nat) :
  forallb is_ws t = true ->
  (forall depth s v rest,
      scan_once f m fuel depth s = Scanned (v, rest) ->
      scan_once f m fuel depth (s ++ t) = Scanned (v, rest ++ t)) /\
  (forall depth s values v rest,
      JSONArray f m fuel depth s values = Scanned (v, rest) ->
      JSONArray f m fuel depth (s ++ t) values = Scanned (v, rest ++ t)) /\
  (forall depth s pairs v rest,
      JSONObject f m fuel depth s pairs = Scanned (v, rest) ->
      JSONObject f m fuel depth (s ++ t) pairs = Scanned (v, rest ++ t)).
Proof.
  intros Ht. induction fuel as [|fuel (IHscan & IHarr & IHobj)].
  - repeat split; intros; discriminate.
  - split; [|split].
    + intros depth s v rest H. destruct s as [|c r]; [discriminate|].
      cbn [app]. rewrite scan_once_cons in H |- *.
      destruct (ord c =? 34).
      { destruct (scanstring r []) as [[str rest0]| | | |] eqn:Es; try discriminate.
        - injection H as <- <-. rewrite (scanstring_tail _ _ _ _ _ Ht Es). reflexivity.
        - exfalso. exact (errmsg_not_scanned _ _ _ _ H). }
      destruct (ord c =? 123).
      { destruct depth as [|depth]; [discriminate|].
        rewrite (skip_ws_tail r t Ht).
        destruct (skip_ws r) as [|c1 r1];
          [exfalso; exact (errmsg_not_scanned _ _ _ _ H)|].
        destruct (ord c1 =? 125); [injection H as <- <-; reflexivity|].
        destruct (ord c1 =? 34); [|exfalso; exact (errmsg_not_scanned _ _ _ _ H)].
        apply IHobj, H. }
      destruct (ord c =? 91).
      { destruct depth as [|depth]; [discriminate|].
        rewrite (skip_ws_tail r t Ht).
        destruct (skip_ws r) as [|c1 r1].
        - exfalso. exact (JSONArray_nil _ _ _ _ _ _ H).
        - destruct (ord c1 =? 93); [injection H as <- <-; reflexivity|].
          apply (IHarr _ (c1 :: r1)), H. }
      apply (scan_atom_tail m (c :: r) t v rest Ht H).
    + intros depth s values v rest H. rewrite JSONArray_step in H |- *.
      destruct (scan_once f m fuel depth s) as [[value rest0]| | | |] eqn:Es;
        try discriminate.
      rewrite (IHscan _ _ _ _ Es), (skip_ws_tail rest0 t Ht).
      destruct (skip_ws rest0) as [|c r];
        [exfalso; exact (errmsg_not_scanned _ _ _ _ H)|].
      destruct (ord c =? 93); [injection H as <- <-; reflexivity|].
      destruct (ord c =? 44); [|exfalso; exact (errmsg_not_scanned _ _ _ _ H)].
      rewrite (skip_ws_tail r t Ht).
      destruct (skip_ws r) as [|x r'].
      * exfalso. exact (JSONArray_nil _ _ _ _ _ _ H).
      * apply (IHarr _ (x :: r')), H.
    + intros depth s pairs v rest H. rewrite JSONObject_step in H |- *.
      destruct (scanstring s []) as [[key rest0]| | | |] eqn:Es; try discriminate;
        [|exfalso; exact (errmsg_not_scanned _ _ _ _ H)].
      rewrite (scanstring_tail _ _ _ _ _ Ht Es), (skip_ws_tail rest0 t Ht).
      destruct (skip_ws rest0) as [|c r];
        [exfalso; exact (errmsg_not_scanned _ _ _ _ H)|].
      destruct (ord c =? 58); [|exfalso; exact (errmsg_not_scanned _ _ _ _ H)].
      rewrite (skip_ws_tail r t Ht).
      destruct (skip_ws r) as [|x r'].
      * exfalso.
        destruct (scan_once f m fuel depth []) as [[? ?]| | | |] eqn:En;
          try discriminate.
        exact (scan_once_nil _ _ _ _ _ En).
      * destruct (scan_once f m fuel depth (x :: r')) as [[value rest1]| | | |] eqn:Ev;
          try discriminate.
        pose proof (IHscan _ (x :: r') _ _ Ev) as Hv. cbn [app] in Hv.
        rewrite Hv, (skip_ws_tail rest1 t Ht).
        destruct (skip_ws rest1) as [|c1 r1];
          [exfalso; exact (errmsg_not_scanned _ _ _ _ H)|].
        destruct (ord c1 =? 125); [injection H as <- <-; reflexivity|].
        destruct (ord c1 =? 44); [|exfalso; exact (errmsg_not_scanned _ _ _ _ H)].
        rewrite (skip_ws_tail r1 t Ht).
        destruct (skip_ws r1) as [|c2 r2];
          [exfalso; exact (errmsg_not_scanned _ _ _ _ H)|].
        destruct (ord c2 =? 34); [|exfalso; exact (errmsg_not_scanned _ _ _ _ H)].
        apply IHobj, H.
Qed.

Lemma skip_ws_leading (ws s : list ascii) :
  forallb is_ws ws = true -> skip_ws (ws ++ s) = skip_ws s.
Proof.
  intros Hws. induction ws as [|c r IH]; simpl in *; [reflexivity|].
  apply andb_true_iff in Hws. destruct Hws as [Hc Hr]. rewrite Hc. auto.
Qed.

(** White space is no byte order mark. *)
Lemma bom_leading (ws s : list ascii) :
  forallb is_ws ws = true ->
  starts_with_bom (ws ++ s) = match ws with [] => starts_with_bom s | _ => false end.
Proof.
  intros Hws. destruct ws as [|c r]; [reflexivity|].
  apply ws_head in Hws. destruct Hws as [Hc _].
  cbn [app]. unfold starts_with_bom.
  rewrite (ws_not c 239 Hc) by lia.
  destruct (r ++ s) as [|b [|c' x]]; reflexivity.
Qed.

(** White space before a text that starts with no byte order mark
    changes nothing. *)
Lemma loads_leading (f m depth : nat) (ws s : list ascii) :
  forallb is_ws ws = true -> starts_with_bom s = false ->
  loads f m depth (ws ++ s) = loads f m depth s.
Proof.
  intros Hws Hbom. unfold loads.
  rewrite (bom_leading ws s Hws), (skip_ws_leading ws s Hws), Hbom.
  destruct ws; reflexivity.
Qed.

(** White space after a text that decodes changes nothing. *)
Lemma loads_trailing (f m depth : nat) (s t : list ascii) (obj : pyobj) :
  forallb is_ws t = true ->
  loads f m depth s = Scanned obj -> loads f m depth (s ++ t) = Scanned obj.
Proof.
  intros Ht. unfold loads.
  destruct (starts_with_bom s) eqn:Eb; [discriminate|].
  assert (Eb' : starts_with_bom (s ++ t) = false).
  { destruct s as [|a [|b [|c x]]]; [| | |exact Eb]; clear Eb; cbn [app].
    - destruct t as [|t1 r]; [reflexivity|].
      apply ws_head in Ht. destruct Ht as [H1 _].
      unfold starts_with_bom. rewrite (ws_not t1 239 H1) by lia.
      destruct r as [|? [|? ?]]; reflexivity.
    - destruct t as [|t1 [|t2 t]]; try reflexivity.
      apply ws_head in Ht. destruct Ht as [H1 _].
      unfold starts_with_bom. rewrite (ws_not t1 187 H1) by lia.
      rewrite andb_false_r. reflexivity.
    - destruct t as [|t1 t]; try reflexivity.
      apply ws_head in Ht. destruct Ht as [H1 _].
      unfold starts_with_bom. rewrite (ws_not t1 191 H1) by lia.
      apply andb_false_r. }
  rewrite Eb'. cbv zeta. rewrite (skip_ws_tail s t Ht).
  destruct (skip_ws s) as [|c r].
  { simpl. discriminate. }
  destruct (scan_once f m (enough (c :: r)) depth (c :: r)) as [[o rest]| | | |] eqn:Es;
    try discriminate.
  destruct (skip_ws rest) as [|x rest'] eqn:Er; [|discriminate].
  intros [= <-].
  pose proof (proj1 (scanners_tail f m t (enough (c :: r)) Ht) _ _ _ _ Es) as Hs.
  assert (Hle : enough (c :: r) <= enough (c :: r ++ t)).
  { unfold enough. simpl. rewrite length_app. lia. }
  pose proof (proj1 (scanners_relax f m f m (le_n _) (fun n E => E) _)
                _ depth depth _ Hle (le_n _)
                ltac:(rewrite Hs; reflexivity)) as Hm.
  cbn [app] in Hm, Hs. rewrite Hm, Hs.
  rewrite (skip_ws_tail rest t Ht), Er. reflexivity.
Qed.

End JsonWhitespace.

(** ** The monad *)

Lemma pure_ret {A} (a : A) : pure (ret a).
Proof. exists (Return a). reflexivity. Qed.

Lemma pure_raise {A} (e : exn) : pure (@raise A e).
Proof. exists (Raise e). reflexivity. Qed.

Lemma pure_bind {A B} (c : M A) (k : A -> M B) :
  pure c -> (forall a, pure (k a)) -> pure (bind c k).
Proof.
  intros [r Hc] Hk. unfold bind.
  destruct r as [a|e].
  - destruct (Hk a) as [r' Hr']. exists r'. intros st. rewrite Hc. apply Hr'.
  - exists (Raise e). intros st. rewrite Hc. reflexivity.
Qed.

(** The store tells a writer from a reader. *)
Lemma set_function_writes : ~ pure (set_function 0 None).
Proof.
  intros [r Hr]. specialize (Hr (store_of (call "f" "{}"))).
  unfold set_function in Hr. injection Hr as _ Hst.
  apply (f_equal (fun st => ToolCall.function (st 0))) in Hst.
  discriminate.
Qed.


Lemma setitem_pure (obj : pyobj) (k : string) (v : pyobj) : pure (setitem obj k v).
Proof. destruct obj; simpl; first [apply pure_ret | apply pure_raise]. Qed.

(** What [json.loads] comes to, by what the decoder makes of the text. *)
Lemma json_loads_loads `{Interpreter} (raw : string) (st : store) :
  json_loads raw st =
  match Json.loads error_frames int_max_str_digits recursion_room
                   (list_ascii_of_string raw) with
  | Json.Scanned obj => (Return obj, st)
  | Json.Failed msg => (Raise (JSONDecodeError msg), st)
  | Json.TooLong => (Raise (ValueError None), st)
  | _ => (Raise RecursionError, st)
  end.
Proof. unfold json_loads. destruct (Json.loads _ _ _ _); reflexivity. Qed.

(** [json.loads] returns an object or raises one of three exceptions,
    and leaves the store alone. *)
Lemma json_loads_outcome `{Interpreter} (s : string) (st : store) :
  (exists obj, json_loads s st = (Return obj, st)) \/
  (exists msg, json_loads s st = (Raise (JSONDecodeError msg), st)) \/
  json_loads s st = (Raise RecursionError, st) \/
  json_loads s st = (Raise (ValueError None), st).
Proof.
  rewrite json_loads_loads.
  destruct (Json.loads _ _ _ _) as [obj|msg| | |]; eauto.
Qed.

(** ** [from_tool_call], step by step *)

Lemma arguments_text_spec (tc : ToolCall.t) (raw : string) :
  arguments_text tc = Some raw <->
  exists function,
    ToolCall.function tc = Some function /\
    ToolCall.arguments function = Some raw /\ raw <> "".
Proof.
  unfold arguments_text. split.
  - destruct (ToolCall.function tc) as [f|]; [|discriminate].
    destruct (ToolCall.arguments f) as [s|] eqn:E; [|discriminate].
    destruct s; simpl; [discriminate|].
    intros [= <-]. exists f. repeat split; auto. discriminate.
  - intros (f & -> & -> & Hne). destruct raw; [contradiction|reflexivity].
Qed.

Lemma arguments_text_none (tc : ToolCall.t) :
  arguments_text tc = None <->
  ToolCall.function tc = None \/
  exists function,
    ToolCall.function tc = Some function /\
    (ToolCall.arguments function = None \/ ToolCall.arguments function = Some "").
Proof.
  unfold arguments_text. split.
  - destruct (ToolCall.function tc) as [f|]; [|auto].
    intros E. right. exists f. split; [reflexivity|].
    destruct (ToolCall.arguments f) as [s|]; [|auto].
    destruct s; [auto|discriminate].
  - intros [-> | (f & -> & [-> | ->])]; reflexivity.
Qed.

(** What [from_tool_call] comes to, by the argument text and what
    [json.loads] makes of it. *)
Lemma from_tool_call_eq `{Interpreter} `{BaseTool}
    (cls : ToolClass) (a : addr) (st : store) :
  GroqTool.from_tool_call cls a st =
  match arguments_text (st a) with
  | None => model_validate cls (PDict [(TOOL_CALL, PRef a)]) st
  | Some raw =>
      match json_loads raw st with
      | (Return obj, _) =>
          (model_json <- setitem obj TOOL_CALL (PRef a) ;;
           model_validate cls model_json) st
      | (Raise (JSONDecodeError msg), _) =>
          (Raise (ValueError (Some (JSONDecodeError msg))), st)
      | (Raise e, _) => (Raise e, st)
      end
  end.
Proof.
  unfold GroqTool.from_tool_call, arguments_text, bind, try_except, load.
  destruct (ToolCall.function (st a)) as [f|]; [|reflexivity].
  destruct (ToolCall.arguments f) as [raw|]; [|reflexivity].
  destruct (truthy raw); [|reflexivity].
  destruct (json_loads_outcome raw st) as [[obj E] | [[msg E] | [E | E]]];
    rewrite E; reflexivity.
Qed.

(** ** Dictionaries *)

Module DictFacts.
Section Facts.
Context {V : Type}.
Implicit Types (d : Dict.t V) (k : string) (v : V).

Lemma get_set_same k v d : Dict.get k (Dict.set k v d) = Some v.
Proof.
  induction d as [|[k' v'] d IH]; simpl.
  - rewrite String.eqb_refl. reflexivity.
  - destruct (String.eqb k k') eqn:E; simpl; rewrite E; auto.
Qed.

Lemma get_set_other k k' v d :
  k <> k' -> Dict.get k' (Dict.set k v d) = Dict.get k' d.
Proof.
  intros Hne. induction d as [|[k0 v0] d IH]; simpl.
  - destruct (String.eqb_spec k' k); [congruence | reflexivity].
  - destruct (String.eqb_spec k k0) as [->|]; simpl.
    + destruct (String.eqb_spec k' k0); [congruence | reflexivity].
    + rewrite IH. reflexivity.
Qed.

Lemma keys_set k v d :
  forall k', In k' (Dict.keys (Dict.set k v d)) <-> k' = k \/ In k' (Dict.keys d).
Proof.
  intros k'. induction d as [|[k0 v0] d IH]; simpl.
  - intuition.
  - destruct (String.eqb_spec k k0) as [->|]; simpl; [intuition|].
    rewrite IH. intuition.
Qed.

Lemma nodup_set k v d : NoDup (Dict.keys d) -> NoDup (Dict.keys (Dict.set k v d)).
Proof.
  induction d as [|[k0 v0] d IH]; simpl; intros N.
  - constructor; [intros [] | constructor].
  - inversion N as [|? ? Hin Hd]; subst.
    destruct (String.eqb_spec k k0) as [->|Hne]; simpl.
    + constructor; assumption.
    + constructor; [|apply IH; assumption].
      intros Hk. apply keys_set in Hk. destruct Hk; [congruence | contradiction].
Qed.

Lemma nodup_fold_set (ps : list (string * V)) d :
  NoDup (Dict.keys d) ->
  NoDup (Dict.keys (fold_left (fun d kv => Dict.set (fst kv) (snd kv) d) ps d)).
Proof.
  revert d. induction ps as [|p ps IH]; intros d N; simpl; [assumption|].
  apply IH, nodup_set, N.
Qed.

Lemma nodup_of_pairs (ps : list (string * V)) : NoDup (Dict.keys (Dict.of_pairs ps)).
Proof. apply nodup_fold_set. constructor. Qed.

Lemma get_none k d : Dict.get k d = None <-> ~ In k (Dict.keys d).
Proof.
  induction d as [|[k0 v0] d IH]; simpl; [intuition|].
  destruct (String.eqb_spec k k0) as [->|Hne].
  - split; [discriminate | intros Hn; exfalso; apply Hn; auto].
  - rewrite IH. intuition congruence.
Qed.

Lemma get_in k v d : Dict.get k d = Some v -> In (k, v) d.
Proof.
  induction d as [|[k0 v0] d IH]; simpl; [discriminate|].
  destruct (String.eqb_spec k k0) as [->|Hne]; [intros [= ->]; auto | auto].
Qed.

Lemma in_get k v d : NoDup (Dict.keys d) -> In (k, v) d -> Dict.get k d = Some v.
Proof.
  induction d as [|[k0 v0] d IH]; simpl; intros N Hin; [contradiction|].
  inversion N as [|? ? Hk Hd]; subst.
  destruct Hin as [[= -> ->] | Hin].
  - rewrite String.eqb_refl. reflexivity.
  - destruct (String.eqb_spec k k0) as [->|Hne]; [|auto].
    exfalso. apply Hk. change k0 with (fst (k0, v)). apply in_map, Hin.
Qed.

(** A fold of assignments reads as the pairs assigned, then as the
    mapping it started from. *)
Lemma get_fold_set (ps : list (string * V)) d k :
  Dict.get k (fold_left (fun d kv => Dict.set (fst kv) (snd kv) d) ps d) =
  match Dict.get k (Dict.of_pairs ps) with
  | Some v => Some v
  | None => Dict.get k d
  end.
Proof.
  unfold Dict.of_pairs. revert d.
  induction ps as [|[k0 v0] ps IH]; intros d; simpl; [reflexivity|].
  rewrite IH. rewrite (IH [(k0, v0)]).
  match goal with
  | |- context [Dict.get k (fold_left ?g ps [])] =>
      destruct (Dict.get k (fold_left g ps [])); [reflexivity|]
  end.
  simpl. destruct (String.eqb_spec k k0) as [->|Hne].
  - apply get_set_same.
  - apply get_set_other. congruence.
Qed.

(** Assignments to other keys leave the first entry where it is. *)
Lemma fold_set_first (ps : list (string * V)) k0 v0 d :
  ~ In k0 (map fst ps) ->
  fold_left (fun d kv => Dict.set (fst kv) (snd kv) d) ps ((k0, v0) :: d) =
  (k0, v0) :: fold_left (fun d kv => Dict.set (fst kv) (snd kv) d) ps d.
Proof.
  revert d. induction ps as [|[k v] ps IH]; intros d Hn; simpl in *; [reflexivity|].
  destruct (String.eqb_spec k k0) as [->|Hne]; [exfalso; auto|].
  apply IH. intuition.
Qed.

End Facts.

Section Map.
Context {V W : Type} (f : V -> W).

Lemma get_on_values k d : Dict.get k (Dict.map_values f d) = option_map f (Dict.get k d).
Proof.
  induction d as [|[k0 v0] d IH]; simpl; [reflexivity|].
  destruct (String.eqb k k0); [reflexivity | exact IH].
Qed.

Lemma set_on_values k v d :
  Dict.set k (f v) (Dict.map_values f d) = Dict.map_values f (Dict.set k v d).
Proof.
  induction d as [|[k0 v0] d IH]; simpl; [reflexivity|].
  destruct (String.eqb k k0); simpl; [reflexivity | rewrite IH; reflexivity].
Qed.

Lemma fold_set_on_values (ps : list (string * V)) d :
  fold_left (fun d kv => Dict.set (fst kv) (f (snd kv)) d) ps (Dict.map_values f d) =
  Dict.map_values f (fold_left (fun d kv => Dict.set (fst kv) (snd kv) d) ps d).
Proof.
  revert d. induction ps as [|[k v] ps IH]; intros d; simpl; [reflexivity|].
  rewrite set_on_values. apply IH.
Qed.

Lemma of_pairs_on_values (ps : list (string * V)) :
  Dict.of_pairs (Dict.map_values f ps) = Dict.map_values f (Dict.of_pairs ps).
Proof.
  unfold Dict.of_pairs. rewrite <- (fold_set_on_values ps []). simpl.
  generalize (@nil (string * W)).
  induction ps as [|[k v] ps IH]; intros d; simpl; [reflexivity | apply IH].
Qed.

Lemma keys_on_values d : Dict.keys (Dict.map_values f d) = Dict.keys d.
Proof. unfold Dict.keys, Dict.map_values. rewrite map_map. reflexivity. Qed.
End Map.
End DictFacts.

(** ** The fields of a tool class *)

Module BaseFacts.
Import Base DictFacts.

Lemma model_fields_eq (cls : ToolClass) :
  model_fields cls =
  fold_left (fun d kv => Dict.set (fst kv) (snd kv) d)
            (Dict.map_values Declared (cls_fields cls)) [(TOOL_CALL, ToolCallField)].
Proof.
  unfold model_fields. generalize [(TOOL_CALL, ToolCallField)].
  induction (cls_fields cls) as [|[k info] fields IH]; intros d; simpl;
    [reflexivity | apply IH].
Qed.

Lemma model_fields_nodup (cls : ToolClass) : NoDup (Dict.keys (model_fields cls)).
Proof.
  rewrite model_fields_eq. apply nodup_fold_set.
  constructor; [intros [] | constructor].
Qed.


Lemma get_model_fields (cls : ToolClass) (k : string) :
  Dict.get k (model_fields cls) =
  match Dict.get k (Dict.of_pairs (cls_fields cls)) with
  | Some info => Some (Declared info)
  | None => if String.eqb k TOOL_CALL then Some ToolCallField else None
  end.
Proof.
  rewrite model_fields_eq, get_fold_set, of_pairs_on_values, get_on_values.
  destruct (Dict.get k (Dict.of_pairs (cls_fields cls))); reflexivity.
Qed.

Lemma declares_tool_call_false (cls : ToolClass) :
  declares_tool_call cls = false <-> ~ In TOOL_CALL (map fst (cls_fields cls)).
Proof.
  unfold declares_tool_call. rewrite <- not_true_iff_false, existsb_exists.
  split.
  - intros Hn Hin. apply Hn. exists TOOL_CALL. split; [exact Hin | apply String.eqb_refl].
  - intros Hn (k & Hin & Hk). apply String.eqb_eq in Hk. subst k. exact (Hn Hin).
Qed.

(** A class that does not declare the key has the tool call field of
    [BaseTool], followed by its own fields. *)
Lemma model_fields_plain (cls : ToolClass) :
  declares_tool_call cls = false ->
  model_fields cls =
  (TOOL_CALL, ToolCallField) :: Dict.map_values Declared (Dict.of_pairs (cls_fields cls)).
Proof.
  intros Hn. apply declares_tool_call_false in Hn.
  rewrite model_fields_eq, fold_set_first.
  - f_equal. apply of_pairs_on_values.
  - unfold Dict.map_values. rewrite map_map. exact Hn.
Qed.

Lemma schema_fields_keys (fs : Dict.t model_field) (k : string) :
  In k (Dict.keys (schema_fields fs)) -> In k (Dict.keys fs).
Proof.
  induction fs as [|[k0 [|info]] fs IH]; simpl; intuition.
Qed.

Lemma schema_fields_nodup (fs : Dict.t model_field) :
  NoDup (Dict.keys fs) -> NoDup (Dict.keys (schema_fields fs)).
Proof.
  induction fs as [|[k0 [|info]] fs IH]; simpl; intros N;
    inversion N as [|? ? Hk Hd]; subst; auto.
  constructor; [|auto]. intros Hin. apply Hk, schema_fields_keys, Hin.
Qed.

Lemma get_schema_fields (fs : Dict.t model_field) (k : string) :
  NoDup (Dict.keys fs) ->
  Dict.get k (schema_fields fs) =
  match Dict.get k fs with
  | Some (Declared info) => Some info
  | _ => None
  end.
Proof.
  induction fs as [|[k0 mf] fs IH]; simpl; intros N; [reflexivity|].
  inversion N as [|? ? Hk Hd]; subst.
  destruct mf as [|info]; simpl.
  - destruct (String.eqb_spec k k0) as [->|Hne]; [|auto].
    apply get_none. intros Hin. apply Hk, schema_fields_keys, Hin.
  - destruct (String.eqb k k0); auto.
Qed.

(** The schema declares the fields of the class body, however the tool
    call field is placed. *)
Lemma schema_field_eq (cls : ToolClass) (k : string) :
  schema_field cls k = Dict.get k (Dict.of_pairs (cls_fields cls)).
Proof.
  unfold schema_field.
  rewrite get_schema_fields by apply model_fields_nodup.
  rewrite get_model_fields.
  destruct (Dict.get k (Dict.of_pairs (cls_fields cls))); [reflexivity|].
  destruct (String.eqb k TOOL_CALL); reflexivity.
Qed.

Lemma schema_field_declared (cls : ToolClass) (k : string) (info : FieldInfo) :
  schema_field cls k = Some info -> In k (map fst (cls_fields cls)).
Proof.
  rewrite schema_field_eq. intros E.
  assert (Hin : In k (Dict.keys (Dict.of_pairs (cls_fields cls)))).
  { apply get_in in E. change k with (fst (k, info)). apply in_map, E. }
  clear E. revert Hin. unfold Dict.of_pairs.
  assert (G : forall ps (d : Dict.t FieldInfo),
             In k (Dict.keys (fold_left (fun d kv => Dict.set (fst kv) (snd kv) d) ps d)) ->
             In k (map fst ps) \/ In k (Dict.keys d)).
  { induction ps as [|[k0 v0] ps IH]; intros d; simpl; [auto|].
    intros Hin. apply IH in Hin. destruct Hin as [|Hin]; [auto|].
    apply keys_set in Hin. intuition. }
  intros Hin. apply G in Hin. destruct Hin as [|[]]; assumption.
Qed.

Lemma required_names_spec (cls : ToolClass) (x : string) :
  In x (required_names cls) <->
  exists info, schema_field cls x = Some info /\ default info = None.
Proof.
  unfold required_names, schema_field.
  pose proof (schema_fields_nodup _ (model_fields_nodup cls)) as N.
  rewrite in_map_iff. split.
  - intros ([k info] & <- & Hin). apply filter_In in Hin. destruct Hin as [Hin Hd].
    exists info. split; [apply in_get; assumption|].
    simpl in Hd. unfold has_default in Hd. destruct (default info); [discriminate | reflexivity].
  - intros (info & E & Hd). exists (x, info). split; [reflexivity|].
    apply filter_In. split; [apply get_in, E|].
    simpl. unfold has_default. rewrite Hd. reflexivity.
Qed.

(** ** Validation *)


(** Induction on a declared type, through the fields of a nested
    structured type. *)
Lemma ftype_induction (P : ftype -> Prop) :
  P TStr -> P TInt -> P TFloat -> P TBool ->
  (forall item, P item -> P (TList item)) ->
  (forall t, P t -> P (TOptional t)) ->
  (forall fields, Forall (fun f => P (fst (snd f))) fields -> P (TObject fields)) ->
  forall t, P t.
Proof.
  intros HS HI HF HB HL HO HObj.
  refine (fix IH (t : ftype) : P t :=
            match t with
            | TStr => HS
            | TInt => HI
            | TFloat => HF
            | TBool => HB
            | TList item => HL item (IH item)
            | TOptional t' => HO t' (IH t')
            | TObject fields =>
                HObj fields
                  ((fix all (fs : list (string * (ftype * bool)))
                      : Forall (fun f => P (fst (snd f))) fs :=
                      match fs with
                      | [] => Forall_nil _
                      | f :: rest => Forall_cons f (IH (fst (snd f))) (all rest)
                      end) fields)
            end).
Qed.



(** A reference is of no declared type. *)
Lemma check_ref (t : ftype) (a : addr) (loc : list loc_item) : check t (PRef a) loc <> [].
Proof.
  induction t as [| | | |item IH|t IH|fields IH] using ftype_induction;
    try discriminate. exact IH.
Qed.






(** What [model_validate] answers. *)
Lemma model_validate_eq (cls : ToolClass) (input : Dict.t pyobj) (st : store) :
  model_validate cls (PDict input) st =
  match fst (fst (validate_fields (model_fields cls) input)) with
  | [] =>
      (Return {| inst_class := cls;
                 inst_values := snd (fst (validate_fields (model_fields cls) input));
                 model_fields_set := snd (validate_fields (model_fields cls) input) |},
       st)
  | errs => (Raise (ValidationError errs), st)
  end.
Proof.
  unfold model_validate.
  destruct (validate_fields (model_fields cls) input) as [[errs vals] given]; simpl.
  destruct errs; reflexivity.
Qed.

Lemma model_validate_outcome (cls : ToolClass) (obj : pyobj) (st : store) :
  (exists inst, model_validate cls obj st = (Return inst, st)) \/
  (exists errs, model_validate cls obj st = (Raise (ValidationError errs), st)).
Proof.
  destruct obj; try (right; eexists; reflexivity).
  rewrite model_validate_eq.
  destruct (fst (fst _)); [left | right]; eexists; reflexivity.
Qed.

Lemma model_validate_pure (cls : ToolClass) (obj : pyobj) : pure (model_validate cls obj).
Proof.
  unfold model_validate. destruct obj; try apply pure_raise.
  destruct (validate_fields _ _) as [[[|e errs] vals] given];
    [apply pure_ret | apply pure_raise].
Qed.

End BaseFacts.

(** ** Runs *)

Example json_loads_nested (st : store) :
  json_loads (json_text "{'a': [1, -2.5e3, true, null], 'b': {'c': 'x\u00e9'}, 'a': 0}") st =
  (Return (PDict [("a", PInt 0);
                  ("b", PDict [("c", PStr (String "x" (String (ascii_of_nat 195)
                                             (String (ascii_of_nat 169) ""))))])]),
   st).
Proof. reflexivity. Qed.

Example json_loads_trailing_comma (st : store) :
  json_loads "[1,]" st = (Raise (JSONDecodeError "Expecting value"), st).
Proof. reflexivity. Qed.

(** The grammar admits the constants of Python and not a bare word. *)
Example json_grammar :
  Json.valid (list_ascii_of_string (json_text "{'a': [NaN, -Infinity]}")) = true /\
  Json.valid (list_ascii_of_string "{not json") = false /\
  Json.valid (list_ascii_of_string "[1,]") = false.
Proof. repeat split. Qed.

Example json_loads_byte_order_mark (st : store) :
  json_loads (String (ascii_of_nat 239) (String (ascii_of_nat 187)
                (String (ascii_of_nat 191) "{}"))) st =
  (Raise (JSONDecodeError "Unexpected UTF-8 BOM (decode using utf-8-sig)"), st).
Proof. reflexivity. Qed.

(** An escape that ends the text is refused as an escape. *)
Example json_loads_escape_at_end (st : store) :
  json_loads (json_text "'\u1234") st =
  (Raise (JSONDecodeError "Invalid \uXXXX escape"), st).
Proof. reflexivity. Qed.

(** Near the limit of the recursion, the error of a text that is not
    JSON cannot be built any more. *)
Example loads_near_the_limit :
  Json.loads 3 4300 5 (list_ascii_of_string "[[1") =
  Json.Failed "Expecting ',' delimiter" /\
  Json.loads 3 4300 4 (list_ascii_of_string "[[1") = Json.TooDeep /\
  Json.loads 3 4300 4 (list_ascii_of_string "[[[[") = Json.Failed "Expecting value" /\
  Json.loads 3 4300 4 (list_ascii_of_string "[[[[[") = Json.TooDeep.
Proof. repeat split. Qed.

Example from_fn_lookup (value_field : string) (st : store) :
  @GroqTool.from_fn (base_utils value_field) lookup st = (Return Lookup, st).
Proof. reflexivity. Qed.

Example from_fn_without_annotation (value_field : string) (st : store) :
  @GroqTool.from_fn (base_utils value_field)
    {| fn_name := "f"; fn_doc := None;
       fn_parameters :=
         [ {| param_name := "x"; param_annotation := None;
              param_default := None; param_description := None |} ] |} st =
  (Raise (SchemaBuildError "x"), st).
Proof. reflexivity. Qed.

Example from_model_order (value_field : string) (st : store) :
  @GroqTool.from_model (base_utils value_field) order st = (Return Order, st).
Proof. reflexivity. Qed.

Example from_base_type_int (st : store) :
  exists cls,
    @GroqTool.from_base_type (base_utils "value") {| wrapped := TInt |} st =
    (Return cls, st) /\
    Base.parameter_schema cls =
    PDict [("type", PStr "object");
           ("properties", PDict [("value", PDict [("type", PStr "integer")])]);
           ("required", PList [PStr "value"])].
Proof. eexists. split; reflexivity. Qed.

Example lookup_tool_schema (st : store) :
  GroqTool.tool_schema Lookup st =
  (Return
     (PDict
        [("type", PStr "function");
         ("function",
          PDict
            [("name", PStr "lookup");
             ("description", PStr "Looks up the weather of a city.");
             ("parameters",
              PDict
                [("type", PStr "object");
                 ("properties",
                  PDict
                    [("city",
                      PDict [("type", PStr "string");
                             ("description", PStr "the city to look up")]);
                     ("units",
                      PDict [("type", PStr "string");
                             ("description", PStr "the units to answer in")])]);
                 ("required", PList [PStr "city"])])])]),
   st).
Proof. reflexivity. Qed.

(** The call [lookup] with the city alone: the instance holds the
    default of [units], which is not among the arguments it was given. *)
Example lookup_tokyo :
  exists inst,
    GroqTool.from_tool_call Lookup 0
      (store_of (call "lookup" (json_text "{'city': 'Tokyo'}"))) =
    (Return inst, store_of (call "lookup" (json_text "{'city': 'Tokyo'}"))) /\
    inst_values inst =
    [("tool_call", PRef 0); ("city", PStr "Tokyo"); ("units", PStr "metric")] /\
    args inst = [("city", PStr "Tokyo"); ("units", PStr "metric")] /\
    explicit_args inst = [("city", PStr "Tokyo")].
Proof. eexists. repeat split. Qed.

Example lookup_wrong_type :
  GroqTool.from_tool_call Lookup 0
    (store_of (call "lookup" (json_text "{'city': 3, 'units': ['metric']}"))) =
  (Raise (ValidationError [Base.error string_type [Key "city"];
                           Base.error string_type [Key "units"]]),
   store_of (call "lookup" (json_text "{'city': 3, 'units': ['metric']}"))).
Proof. reflexivity. Qed.

(** ** Properties of [GroqTool] *)

Lemma setitem_dict (d : Dict.t pyobj) (k : string) (v : pyobj) (st : store) :
  setitem (PDict d) k v st = (Return (PDict (Dict.set k v d)), st).
Proof. reflexivity. Qed.

Lemma setitem_non_dict (obj : pyobj) (k : string) (v : pyobj) (st : store) :
  (forall d, obj <> PDict d) ->
  exists msg, setitem obj k v st = (Raise (TypeError msg), st).
Proof.
  intros Hnd. destruct obj; try (eexists; reflexivity).
  exfalso. eapply Hnd. reflexivity.
Qed.

(** [from_tool_call] on a tool call that carries an argument text. *)
Lemma from_tool_call_text `{Interpreter} `{BaseTool}
    (cls : ToolClass) (a : addr) (st : store)
    (function : ToolCall.Function) (raw : string) :
  ToolCall.function (st a) = Some function ->
  ToolCall.arguments function = Some raw ->
  raw <> "" ->
  GroqTool.from_tool_call cls a st =
  match json_loads raw st with
  | (Return obj, _) =>
      (model_json <- setitem obj TOOL_CALL (PRef a) ;;
       model_validate cls model_json) st
  | (Raise (JSONDecodeError msg), _) =>
      (Raise (ValueError (Some (JSONDecodeError msg))), st)
  | (Raise e, _) => (Raise e, st)
  end.
Proof.
  intros Hf Ha Hne. rewrite from_tool_call_eq.
  replace (arguments_text (st a)) with (Some raw); [reflexivity|].
  symmetry. apply arguments_text_spec. eauto.
Qed.







(** C2. [GroqTool.tool_schema] returns the dictionary with the two keys
    [type], bound to ["function"], and [function], bound to what the
    schema builder of the base class returned, unchanged (and raises what
    the builder raises); with the base class as specified, that is the
    triple of name, description and parameters. *)
Theorem tool_schema_envelope :
  (forall (base : BaseTool) (cls : ToolClass) (st : store),
      GroqTool.tool_schema cls st =
      match super_tool_schema cls st with
      | (Return fn, st') =>
          (Return (PDict [("type", PStr "function"); ("function", fn)]), st')
      | (Raise e, st') => (Raise e, st')
      end) /\
  (forall (cls : ToolClass) (st : store),
      GroqTool.tool_schema cls st =
      (Return (PDict [("type", PStr "function");
                      ("function",
                       PDict [("name", PStr (cls_name cls));
                              ("description", PStr (Base.tool_description cls));
                              ("parameters", Base.parameter_schema cls)])]),
       st)).
Proof.
  split.
  - intros base cls st. unfold GroqTool.tool_schema, bind.
    destruct (super_tool_schema cls st) as [[fn|e] st']; reflexivity.
  - reflexivity.
Qed.

(** C10. When the argument text is well formed JSON whose value is not an
    object, [from_tool_call] raises a [TypeError], which is neither the
    [ValueError] of a parse failure nor a validation error: assigning the
    tool call under a string key fails on a value that is not a
    dictionary, before any validation. ["[1]"] and ["5"] are such texts. *)
Theorem from_tool_call_non_object `{Interpreter} `{BaseTool}
    (cls : ToolClass) (tool_call : addr)
    (st : store) (function : ToolCall.Function) (raw : string) (obj : pyobj) :
  ToolCall.function (st tool_call) = Some function ->
  ToolCall.arguments function = Some raw ->
  raw <> "" ->
  json_loads raw st = (Return obj, st) ->
  (forall d, obj <> PDict d) ->
  exists msg,
    GroqTool.from_tool_call cls tool_call st = (Raise (TypeError msg), st) /\
    (forall cause, TypeError msg <> ValueError cause) /\
    (forall errs, TypeError msg <> ValidationError errs).
Proof.
  intros Hf Ha Hne Hj Hnd.
  rewrite (from_tool_call_text cls tool_call st function raw Hf Ha Hne), Hj.
  destruct (setitem_non_dict obj TOOL_CALL (PRef tool_call) st Hnd) as [msg Hs].
  exists msg. unfold bind. rewrite Hs. repeat split; discriminate.
Qed.

Lemma from_tool_call_non_object_witness :
  (exists msg,
      GroqTool.from_tool_call Lookup 0 (store_of (call "lookup" "[1]")) =
      (Raise (TypeError msg), store_of (call "lookup" "[1]")) /\
      (forall cause, TypeError msg <> ValueError cause) /\
      (forall errs, TypeError msg <> ValidationError errs)) /\
  (exists msg,
      GroqTool.from_tool_call Lookup 0 (store_of (call "lookup" "5")) =
      (Raise (TypeError msg), store_of (call "lookup" "5")) /\
      (forall cause, TypeError msg <> ValueError cause) /\
      (forall errs, TypeError msg <> ValidationError errs)).
Proof.
  split.
  - apply (from_tool_call_non_object Lookup 0 (store_of (call "lookup" "[1]"))
             {| ToolCall.arguments := Some "[1]"; ToolCall.name := Some "lookup" |}
             "[1]" (PList [PInt 1]));
      [reflexivity | reflexivity | discriminate | reflexivity | discriminate].
  - apply (from_tool_call_non_object Lookup 0 (store_of (call "lookup" "5"))
             {| ToolCall.arguments := Some "5"; ToolCall.name := Some "lookup" |}
             "5" (PInt 5));
      [reflexivity | reflexivity | discriminate | reflexivity | discriminate].
Defined.




Lemma schema_requires_spec (cls : ToolClass) (x : string) :
  schema_requires cls x <-> In x (Base.required_names cls).
Proof.
  unfold schema_requires. split.
  - intros Hs. destruct (Hs (store_of (call "" ""))) as (schema & req & Hrun & Hpath & Hin).
    injection Hrun as <-. simpl in Hpath. injection Hpath as <-.
    apply in_map_iff in Hin. destruct Hin as (y & [= ->] & Hin). exact Hin.
  - intros Hin st. eexists. eexists. split; [reflexivity|]. split; [reflexivity|].
    apply in_map, Hin.
Qed.

Lemma validate_fields_errors_in (fs : Dict.t Base.model_field) (input : Dict.t pyobj)
    (e : ErrorDetails) :
  In e (fst (fst (Base.validate_fields fs input))) <->
  exists k mf es, In (k, mf) fs /\
                  Base.validate_field k mf (Dict.get k input) = inl es /\ In e es.
Proof.
  induction fs as [|[k0 mf0] fs IH]; simpl.
  - split; [intros [] | intros (? & ? & ? & [] & _)].
  - destruct (Base.validate_fields fs input) as [[errs vals] given]; simpl in IH.
    destruct (Base.validate_field k0 mf0 (Dict.get k0 input)) as [es0|[v0 [|]]] eqn:E;
      simpl.
    + rewrite in_app_iff, IH. split.
      * intros [Hin|(k & mf & es & Hin & Hv & He)]; [exists k0, mf0, es0; auto|].
        exists k, mf, es; auto.
      * intros (k & mf & es & [[= <- <-]|Hin] & Hv & He).
        -- left. congruence.
        -- right. exists k, mf, es; auto.
    + rewrite IH. split.
      * intros (k & mf & es & Hin & Hv & He). exists k, mf, es; auto.
      * intros (k & mf & es & [[= <- <-]|Hin] & Hv & He); [congruence|].
        exists k, mf, es; auto.
    + rewrite IH. split.
      * intros (k & mf & es & Hin & Hv & He). exists k, mf, es; auto.
      * intros (k & mf & es & [[= <- <-]|Hin] & Hv & He); [congruence|].
        exists k, mf, es; auto.
Qed.

(** A required field of the schema is a declared field of the class
    without a default. *)
Lemma required_is_declared (cls : ToolClass) (x : string) :
  In x (Base.required_names cls) ->
  exists info, In (x, Base.Declared info) (Base.model_fields cls) /\ default info = None.
Proof.
  intros Hin. apply BaseFacts.required_names_spec in Hin.
  destruct Hin as (info & Hs & Hd). exists info. split; [|exact Hd].
  rewrite BaseFacts.schema_field_eq in Hs.
  apply DictFacts.get_in. rewrite BaseFacts.get_model_fields, Hs. reflexivity.
Qed.

(** The text of the empty object is within the limits of every
    interpreter. *)
Lemma json_loads_empty_object `{Interpreter} (st : store) :
  json_loads "{}" st = (Return (PDict []), st).
Proof.
  rewrite json_loads_loads. pose proof has_room as Hroom.
  destruct recursion_room as [|room]; [lia | reflexivity].
Qed.

(** C5. For a class whose rendered schema requires a field [x], a tool
    call with the argument text ["{}"] makes [from_tool_call] raise a
    validation error: neither the [ValueError] of a parse failure nor an
    instance. The error names [x] as missing (when [x] is not the key of
    the tool call itself). *)
Theorem from_tool_call_missing_required_field `{Interpreter}
    (cls : ToolClass) (tool_call : addr)
    (st : store) (function : ToolCall.Function) (x : string) :
  ToolCall.function (st tool_call) = Some function ->
  ToolCall.arguments function = Some "{}" ->
  schema_requires cls x ->
  exists errs,
    GroqTool.from_tool_call cls tool_call st = (Raise (ValidationError errs), st) /\
    errs <> [] /\
    (x <> TOOL_CALL -> In (Base.error missing [Key x]) errs).
Proof.
  intros Hf Ha Hreq. apply schema_requires_spec in Hreq.
  destruct (required_is_declared cls x Hreq) as (info & Hin & Hd).
  rewrite (from_tool_call_text cls tool_call st function "{}" Hf Ha) by discriminate.
  rewrite json_loads_empty_object.
  unfold bind. rewrite setitem_dict. simpl Dict.set.
  change (model_validate cls (PDict [(TOOL_CALL, PRef tool_call)]) st)
    with (Base.model_validate cls (PDict [(TOOL_CALL, PRef tool_call)]) st).
  rewrite BaseFacts.model_validate_eq.
  set (input := [(TOOL_CALL, PRef tool_call)]).
  assert (Hbad : exists es, Base.validate_field x (Base.Declared info) (Dict.get x input) = inl es /\
                            es <> [] /\ (x <> TOOL_CALL -> es = [Base.error missing [Key x]])).
  { unfold Base.validate_field, input. simpl.
    destruct (String.eqb_spec x TOOL_CALL) as [->|Hne].
    - pose proof (BaseFacts.check_ref (annotation info) tool_call [Key TOOL_CALL]) as Hc.
      destruct (Base.check (annotation info) (PRef tool_call) [Key TOOL_CALL]) as [|e es];
        [contradiction|].
      exists (e :: es). repeat split; [discriminate | contradiction].
    - rewrite Hd. exists [Base.error missing [Key x]]. repeat split. discriminate. }
  destruct Hbad as (es & Hv & Hes & Hmiss).
  assert (Hin_errs : forall e, In e es ->
                               In e (fst (fst (Base.validate_fields (Base.model_fields cls) input)))).
  { intros e He. apply validate_fields_errors_in. exists x, (Base.Declared info), es. auto. }
  destruct (fst (fst (Base.validate_fields (Base.model_fields cls) input)))
    as [|e0 errs] eqn:Eerrs.
  - destruct es as [|e es]; [contradiction|]. destruct (Hin_errs e (or_introl eq_refl)).
  - exists (e0 :: errs). repeat split; [discriminate|].
    intros Hne. apply Hin_errs. rewrite (Hmiss Hne). left. reflexivity.
Qed.

Lemma from_tool_call_missing_required_field_witness :
  exists errs,
    GroqTool.from_tool_call Lookup 0 (store_of (call "lookup" "{}")) =
    (Raise (ValidationError errs), store_of (call "lookup" "{}")) /\
    errs <> [] /\
    ("city" <> TOOL_CALL -> In (Base.error missing [Key "city"]) errs).
Proof.
  apply (from_tool_call_missing_required_field Lookup 0 (store_of (call "lookup" "{}"))
           {| ToolCall.arguments := Some "{}"; ToolCall.name := Some "lookup" |} "city").
  - reflexivity.
  - reflexivity.
  - intros st. eexists. eexists. split; [reflexivity|]. split; [reflexivity|].
    simpl. left. reflexivity.
Defined.

(** ** The key of the tool call *)

Lemma schema_fields_on_values (l : Dict.t FieldInfo) :
  Base.schema_fields (Dict.map_values Base.Declared l) = l.
Proof.
  induction l as [|[k info] l IH]; simpl; [reflexivity | rewrite IH; reflexivity].
Qed.

(** Fields that were not given: an error for each without a default. *)
Lemma validate_absent (l : Dict.t FieldInfo) (input : Dict.t pyobj) :
  (forall k, In k (Dict.keys l) -> Dict.get k input = None) ->
  fst (fst (Base.validate_fields (Dict.map_values Base.Declared l) input)) =
  map (fun k => Base.error missing [Key k])
      (map fst (filter (fun kf => negb (Base.has_default (snd kf))) l)) /\
  snd (Base.validate_fields (Dict.map_values Base.Declared l) input) = [].
Proof.
  induction l as [|[k info] l IH]; intros Habs; simpl; [auto|].
  destruct IH as [IHe IHg]; [intros k' Hk'; apply Habs; simpl; auto|].
  destruct (Base.validate_fields (Dict.map_values Base.Declared l) input)
    as [[errs vals] given]; simpl in IHe, IHg. subst errs given.
  rewrite (Habs k (or_introl eq_refl)). unfold Base.has_default.
  destruct (default info); simpl; auto.
Qed.

Lemma not_declared_keys (cls : ToolClass) :
  declares_tool_call cls = false ->
  ~ In TOOL_CALL (Dict.keys (Dict.of_pairs (cls_fields cls))).
Proof.
  intros Hn Hin. apply BaseFacts.declares_tool_call_false in Hn.
  apply Hn. unfold Dict.keys in Hin. apply in_map_iff in Hin.
  destruct Hin as ([k info] & Hk & Hin). simpl in Hk. subst k.
  apply (BaseFacts.schema_field_declared cls TOOL_CALL info).
  rewrite BaseFacts.schema_field_eq.
  apply DictFacts.in_get; [apply DictFacts.nodup_of_pairs | exact Hin].
Qed.

Lemma required_names_plain (cls : ToolClass) :
  declares_tool_call cls = false ->
  Base.required_names cls =
  map fst (filter (fun kf => negb (Base.has_default (snd kf)))
                  (Dict.of_pairs (cls_fields cls))).
Proof.
  intros Hn. unfold Base.required_names.
  rewrite (BaseFacts.model_fields_plain cls Hn). simpl.
  rewrite schema_fields_on_values. reflexivity.
Qed.

(** Validation of the tool call alone, for a class that does not declare
    its key. *)
Lemma validate_tool_call_alone (cls : ToolClass) (a : addr) (st : store) :
  declares_tool_call cls = false ->
  (Base.required_names cls = [] ->
   exists inst,
     Base.model_validate cls (PDict [(TOOL_CALL, PRef a)]) st = (Return inst, st)) /\
  (Base.required_names cls <> [] ->
   Base.model_validate cls (PDict [(TOOL_CALL, PRef a)]) st =
   (Raise (ValidationError
             (map (fun k => Base.error missing [Key k]) (Base.required_names cls))),
    st)).
Proof.
  intros Hn. rewrite BaseFacts.model_validate_eq.
  rewrite (required_names_plain cls Hn), (BaseFacts.model_fields_plain cls Hn).
  pose proof (not_declared_keys cls Hn) as Hk.
  destruct (validate_absent (Dict.of_pairs (cls_fields cls)) [(TOOL_CALL, PRef a)])
    as [He Hg].
  { intros k Hin. simpl. destruct (String.eqb_spec k TOOL_CALL) as [->|]; [contradiction|].
    reflexivity. }
  simpl.
  destruct (Base.validate_fields _ _) as [[errs vals] given]; simpl in He, Hg |- *.
  subst errs. split.
  - intros ->. simpl. eexists. reflexivity.
  - intros Hne.
    destruct (map fst (filter _ (Dict.of_pairs (cls_fields cls)))); [contradiction|].
    reflexivity.
Qed.

(** C9, as amended. When the tool call has no function member, or no
    arguments, or the empty string for arguments, [from_tool_call] parses
    nothing: it validates the mapping that holds the tool call alone, so
    it raises no [ValueError]. For a class that declares no field under
    the key of the tool call, that validation fails exactly when the
    schema has required fields, naming each as missing. *)
Theorem from_tool_call_empty_arguments `{Interpreter}
    (cls : ToolClass) (tool_call : addr) (st : store) :
  ToolCall.function (st tool_call) = None \/
  (exists function,
      ToolCall.function (st tool_call) = Some function /\
      (ToolCall.arguments function = None \/ ToolCall.arguments function = Some "")) ->
  GroqTool.from_tool_call cls tool_call st =
  model_validate cls (PDict [(TOOL_CALL, PRef tool_call)]) st /\
  (forall cause st',
      GroqTool.from_tool_call cls tool_call st <> (Raise (ValueError cause), st')) /\
  (declares_tool_call cls = false ->
   (Base.required_names cls = [] ->
    exists inst, GroqTool.from_tool_call cls tool_call st = (Return inst, st)) /\
   (Base.required_names cls <> [] ->
    GroqTool.from_tool_call cls tool_call st =
    (Raise (ValidationError
              (map (fun k => Base.error missing [Key k]) (Base.required_names cls))),
     st))).
Proof.
  intros Hempty. apply arguments_text_none in Hempty.
  assert (E : GroqTool.from_tool_call cls tool_call st =
              model_validate cls (PDict [(TOOL_CALL, PRef tool_call)]) st).
  { rewrite from_tool_call_eq, Hempty. reflexivity. }
  rewrite E. split; [reflexivity|]. split.
  - intros cause st'.
    destruct (BaseFacts.model_validate_outcome cls (PDict [(TOOL_CALL, PRef tool_call)]) st)
      as [[inst Ev] | [errs Ev]]; simpl in Ev |- *; rewrite Ev; discriminate.
  - intros Hn. apply validate_tool_call_alone, Hn.
Qed.

Lemma from_tool_call_empty_arguments_witness :
  GroqTool.from_tool_call Lookup 0 (store_of (call "lookup" "")) =
  (Raise (ValidationError [Base.error missing [Key "city"]]),
   store_of (call "lookup" "")).
Proof.
  refine (proj2 (proj2 (proj2 (from_tool_call_empty_arguments Lookup 0
                                 (store_of (call "lookup" "")) _)) _) _).
  - right. eexists. split; [reflexivity|]. right. reflexivity.
  - reflexivity.
  - discriminate.
Defined.

(** C9 as stated fails: the class [ShadowDefault] has no required field,
    yet [from_tool_call] fails validation on a tool call with empty
    arguments, the tool call having taken the place of the declared
    string. *)
Lemma empty_arguments_fail_without_required_field :
  arguments_text (call "ShadowDefault" "") = None /\
  Base.required_names ShadowDefault = [] /\
  GroqTool.from_tool_call ShadowDefault 0 (store_of (call "ShadowDefault" "")) =
  (Raise (ValidationError [Base.error string_type [Key "tool_call"]]),
   store_of (call "ShadowDefault" "")).
Proof. repeat split. Qed.

(** C4, as amended. For a class that declares no field under the key of
    the tool call, [from_tool_call] validates the parsed arguments with
    the tool call assigned under that key, and the assignment leaves the
    value of every declared field as it was parsed. *)
Theorem tool_call_key_keeps_declared_arguments `{Interpreter} `{BaseTool}
    (cls : ToolClass)
    (tool_call : addr) (st : store) (function : ToolCall.Function) (raw : string)
    (parsed : Dict.t pyobj) :
  declares_tool_call cls = false ->
  ToolCall.function (st tool_call) = Some function ->
  ToolCall.arguments function = Some raw ->
  json_loads raw st = (Return (PDict parsed), st) ->
  GroqTool.from_tool_call cls tool_call st =
  model_validate cls (PDict (Dict.set TOOL_CALL (PRef tool_call) parsed)) st /\
  Dict.get TOOL_CALL (Dict.set TOOL_CALL (PRef tool_call) parsed) = Some (PRef tool_call) /\
  forall k, In k (map fst (cls_fields cls)) ->
            Dict.get k (Dict.set TOOL_CALL (PRef tool_call) parsed) = Dict.get k parsed.
Proof.
  intros Hn Hf Ha Hj. split; [|split].
  - assert (Hne : raw <> "") by (intros ->; discriminate).
    rewrite (from_tool_call_text cls tool_call st function raw Hf Ha Hne), Hj.
    reflexivity.
  - apply DictFacts.get_set_same.
  - intros k Hk. apply DictFacts.get_set_other. intros <-.
    apply BaseFacts.declares_tool_call_false in Hn. exact (Hn Hk).
Qed.

Lemma tool_call_key_keeps_declared_arguments_witness :
  Dict.get "city" (Dict.set TOOL_CALL (PRef 0) [("city", PStr "Tokyo")]) =
  Dict.get "city" [("city", PStr "Tokyo")].
Proof.
  refine (proj2 (proj2 (tool_call_key_keeps_declared_arguments Lookup 0
            (store_of (call "lookup" (json_text "{'city': 'Tokyo'}")))
            {| ToolCall.arguments := Some (json_text "{'city': 'Tokyo'}");
               ToolCall.name := Some "lookup" |}
            (json_text "{'city': 'Tokyo'}")
            [("city", PStr "Tokyo")] _ _ _ _)) "city" _).
  - reflexivity.
  - reflexivity.
  - reflexivity.
  - reflexivity.
  - simpl. left. reflexivity.
Defined.

(** C4 as stated fails: [Shadow] declares a field under the key of the
    tool call; the argument text gives it the value ["abc"], the
    assignment replaces that value by the tool call, and validation
    rejects it. *)
Lemma tool_call_key_overwrites_declared_argument :
  declares_tool_call Shadow = true /\
  json_loads (json_text "{'tool_call': 'abc'}")
             (store_of (call "shadow" (json_text "{'tool_call': 'abc'}"))) =
  (Return (PDict [("tool_call", PStr "abc")]),
   store_of (call "shadow" (json_text "{'tool_call': 'abc'}"))) /\
  Dict.get TOOL_CALL (Dict.set TOOL_CALL (PRef 0) [("tool_call", PStr "abc")]) <>
  Dict.get TOOL_CALL [("tool_call", PStr "abc")] /\
  GroqTool.from_tool_call Shadow 0
    (store_of (call "shadow" (json_text "{'tool_call': 'abc'}"))) =
  (Raise (ValidationError [Base.error string_type [Key "tool_call"]]),
   store_of (call "shadow" (json_text "{'tool_call': 'abc'}"))).
Proof.
  split; [reflexivity|]. split; [reflexivity|]. split; [discriminate | reflexivity].
Qed.

(** ** Tools made from sources *)









(** ** The round trip *)




Section RoundTrip.
Variables (cls : ToolClass) (m : Dict.t pyobj) (a : addr).
Hypothesis plain : declares_tool_call cls = false.
Hypothesis valid_args : valid_arguments cls m = true.

Lemma valid :
  (forall k v, Dict.get k m = Some v ->
               exists info, schema_field cls k = Some info /\
                            has_type (annotation info) v = true) /\
  (forall k info, schema_field cls k = Some info -> default info = None ->
                  Dict.mem k m = true).
Proof.
  unfold valid_arguments in valid_args. apply andb_true_iff in valid_args.
  destruct valid_args as [Hargs Hreq]. split.
  - intros k v Hget. apply DictFacts.get_in in Hget.
    rewrite forallb_forall in Hargs. specialize (Hargs _ Hget). simpl in Hargs.
    destruct (schema_field cls k) as [info|]; [eauto | discriminate].
  - intros k info Hs Hd. rewrite forallb_forall in Hreq. apply Hreq.
    apply BaseFacts.required_names_spec. eauto.
Qed.











End RoundTrip.




(** ** Further properties of [from_tool_call] *)

(** With a validator that answers the same in every store, the outcome
    is decided by what the decoder makes of the argument text. *)
Lemma from_tool_call_by_loads `{Interpreter} `{BaseTool} (cls : ToolClass) (a : addr)
    (st1 st2 : store) (raw1 raw2 : string) :
  (forall obj, pure (model_validate cls obj)) ->
  arguments_text (st1 a) = Some raw1 ->
  arguments_text (st2 a) = Some raw2 ->
  Json.loads error_frames int_max_str_digits recursion_room (list_ascii_of_string raw1) =
  Json.loads error_frames int_max_str_digits recursion_room (list_ascii_of_string raw2) ->
  fst (GroqTool.from_tool_call cls a st1) = fst (GroqTool.from_tool_call cls a st2).
Proof.
  intros Hp E1 E2 Hd. rewrite !from_tool_call_eq, E1, E2, !json_loads_loads, Hd.
  destruct (Json.loads _ _ _ (list_ascii_of_string raw2)) as [obj|msg| | |];
    try reflexivity.
  assert (P : pure (model_json <- setitem obj TOOL_CALL (PRef a) ;;
                    model_validate cls model_json)).
  { apply pure_bind; [apply setitem_pure | intros model_json; apply Hp]. }
  destruct P as [r Hr]. rewrite !Hr. reflexivity.
Qed.

Lemma from_tool_call_frame `{Interpreter} `{BaseTool}
    (cls : ToolClass) (a : addr) (st : store) :
  (forall obj, pure (model_validate cls obj)) ->
  snd (GroqTool.from_tool_call cls a st) = st.
Proof.
  intros Hp. rewrite from_tool_call_eq.
  destruct (arguments_text (st a)) as [raw|].
  - rewrite json_loads_loads.
    destruct (Json.loads _ _ _ (list_ascii_of_string raw)) as [obj|msg| | |];
      try reflexivity.
    assert (P : pure (model_json <- setitem obj TOOL_CALL (PRef a) ;;
                      model_validate cls model_json)).
    { apply pure_bind; [apply setitem_pure | intros model_json; apply Hp]. }
    destruct P as [r Hr]. rewrite Hr. reflexivity.
  - destruct (Hp (PDict [(TOOL_CALL, PRef a)])) as [r Hr]. rewrite Hr. reflexivity.
Qed.

(** X1. [from_tool_call] reads nothing of the tool call but the argument
    text: with a validator that answers the same in every store, two tool
    calls with the same argument text (absent and empty counting as the
    same) give the same outcome, whatever their id, type and function
    name; the name is not compared with the class. The store is left as
    it was. *)
Theorem from_tool_call_reads_arguments_only `{Interpreter} `{BaseTool}
    (cls : ToolClass) (a : addr) :
  (forall obj, pure (model_validate cls obj)) ->
  (forall st, snd (GroqTool.from_tool_call cls a st) = st) /\
  (forall st1 st2,
      arguments_text (st1 a) = arguments_text (st2 a) ->
      fst (GroqTool.from_tool_call cls a st1) =
      fst (GroqTool.from_tool_call cls a st2)).
Proof.
  intros Hp. split.
  - intros st. apply from_tool_call_frame, Hp.
  - intros st1 st2 E.
    destruct (arguments_text (st2 a)) as [raw|] eqn:E2.
    + apply (from_tool_call_by_loads cls a st1 st2 raw raw Hp E E2 eq_refl).
    + rewrite !from_tool_call_eq, E, E2.
      destruct (Hp (PDict [(TOOL_CALL, PRef a)])) as [r Hr]. rewrite !Hr. reflexivity.
Qed.

Lemma from_tool_call_reads_arguments_only_witness :
  fst (GroqTool.from_tool_call Lookup 0
         (store_of (call "lookup" (json_text "{'city': 'Tokyo'}")))) =
  fst (GroqTool.from_tool_call Lookup 0
         (store_of {| ToolCall.id := None;
                      ToolCall.function :=
                        Some {| ToolCall.arguments := Some (json_text "{'city': 'Tokyo'}");
                                ToolCall.name := Some "another_tool" |};
                      ToolCall.type := None |})).
Proof.
  apply (proj2 (@from_tool_call_reads_arguments_only cpython base_tool Lookup 0
                  (BaseFacts.model_validate_pure Lookup))).
  reflexivity.
Defined.

Lemma match_number_value (s : list ascii) (v : pyobj) (rest : list ascii) :
  Json.match_number s = Some (v, rest) ->
  (exists z, v = PInt z) \/ (exists literal, v = PFloat literal).
Proof.
  unfold Json.match_number.
  destruct (Json.match_integer s) as [[integer r0]|]; [|discriminate].
  destruct (match Json.match_frac r0 with Some (f, r) => (f, r) | None => ([], r0) end)
    as [frac r1].
  destruct (match Json.match_exp r1 with Some (e, r) => (e, r) | None => ([], r1) end)
    as [exp r2].
  destruct frac, exp; intros [= <- _]; eauto.
Qed.

Lemma scan_atom_no_dict (m : nat) (s : list ascii) (d : Dict.t pyobj)
    (rest : list ascii) :
  Json.scan_atom m s <> Json.Scanned (PDict d, rest).
Proof.
  unfold Json.scan_atom.
  destruct (Json.literal "null" s); [discriminate|].
  destruct (Json.literal "true" s); [discriminate|].
  destruct (Json.literal "false" s); [discriminate|].
  destruct (Json.match_number s) as [[v0 r0]|] eqn:En.
  { destruct (_ && _); [discriminate|]. intros [= -> _].
    apply match_number_value in En. destruct En as [[z En] | [l En]]; discriminate. }
  destruct (Json.literal "NaN" s); [discriminate|].
  destruct (Json.literal "Infinity" s); [discriminate|].
  destruct (Json.literal "-Infinity" s); discriminate.
Qed.

(** The keys of an object the decoder builds are pairwise distinct, and
    an array is no object. *)
Lemma scanners_dict_keys (f m fuel : nat) :
  (forall depth s d rest,
      Json.scan_once f m fuel depth s = Json.Scanned (PDict d, rest) ->
      NoDup (Dict.keys d)) /\
  (forall depth s values d rest,
      Json.JSONArray f m fuel depth s values <> Json.Scanned (PDict d, rest)) /\
  (forall depth s pairs d rest,
      Json.JSONObject f m fuel depth s pairs = Json.Scanned (PDict d, rest) ->
      NoDup (Dict.keys d)).
Proof.
  assert (err : forall depth msg (res : pyobj * list ascii),
             Json.errmsg f depth msg <> Json.Scanned res)
    by (intros; apply JsonWhitespace.errmsg_not_scanned).
  induction fuel as [|fuel (IHscan & IHarr & IHobj)].
  - repeat split; intros; discriminate.
  - split; [|split].
    + intros depth s d rest H. destruct s as [|c r]; [discriminate|].
      rewrite JsonFacts.scan_once_cons in H.
      destruct (Json.ord c =? 34).
      { destruct (Json.scanstring r []) as [[str rest0]| | | |]; try discriminate.
        destruct (err _ _ _ H). }
      destruct (Json.ord c =? 123).
      { destruct depth as [|depth]; [discriminate|].
        destruct (Json.skip_ws r) as [|c1 r1]; [destruct (err _ _ _ H)|].
        destruct (Json.ord c1 =? 125); [injection H as <- _; constructor|].
        destruct (Json.ord c1 =? 34); [|destruct (err _ _ _ H)].
        apply (IHobj _ _ _ _ _ H). }
      destruct (Json.ord c =? 91).
      { destruct depth as [|depth]; [discriminate|].
        destruct (Json.skip_ws r) as [|c1 r1].
        - destruct (IHarr _ _ _ _ _ H).
        - destruct (Json.ord c1 =? 93); [discriminate|]. destruct (IHarr _ _ _ _ _ H). }
      destruct (scan_atom_no_dict _ _ _ _ H).
    + intros depth s values d rest H. rewrite JsonFacts.JSONArray_step in H.
      destruct (Json.scan_once f m fuel depth s) as [[value rest0]| | | |];
        try discriminate.
      destruct (Json.skip_ws rest0) as [|c r]; [destruct (err _ _ _ H)|].
      destruct (Json.ord c =? 93); [discriminate|].
      destruct (Json.ord c =? 44); [|destruct (err _ _ _ H)].
      exact (IHarr _ _ _ _ _ H).
    + intros depth s pairs d rest H. rewrite JsonFacts.JSONObject_step in H.
      destruct (Json.scanstring s []) as [[key rest0]| | | |]; try discriminate;
        [|destruct (err _ _ _ H)].
      destruct (Json.skip_ws rest0) as [|c r]; [destruct (err _ _ _ H)|].
      destruct (Json.ord c =? 58); [|destruct (err _ _ _ H)].
      destruct (Json.scan_once f m fuel depth (Json.skip_ws r)) as [[value rest1]| | | |];
        try discriminate.
      destruct (Json.skip_ws rest1) as [|c1 r1]; [destruct (err _ _ _ H)|].
      destruct (Json.ord c1 =? 125).
      { injection H as <- _. apply DictFacts.nodup_of_pairs. }
      destruct (Json.ord c1 =? 44); [|destruct (err _ _ _ H)].
      destruct (Json.skip_ws r1) as [|c2 r2]; [destruct (err _ _ _ H)|].
      destruct (Json.ord c2 =? 34); [|destruct (err _ _ _ H)].
      apply (IHobj _ _ _ _ _ H).
Qed.

Lemma json_loads_dict_keys `{Interpreter} (raw : string) (st st' : store)
    (d : Dict.t pyobj) :
  json_loads raw st = (Return (PDict d), st') -> NoDup (Dict.keys d).
Proof.
  rewrite json_loads_loads. unfold Json.loads.
  destruct (Json.starts_with_bom _); [discriminate|]. cbv zeta.
  destruct (Json.scan_once _ _ _ _ _) as [[obj rest]| | | |] eqn:Es; try discriminate.
  destruct (Json.skip_ws rest); [|discriminate].
  intros [= -> _]. apply (proj1 (scanners_dict_keys _ _ _) _ _ _ _ Es).
Qed.

(** X2. Whatever the base class, how [from_tool_call] ends is decided by
    what [json.loads] does with the argument text. Without a text it
    ends as the validator ends on the dictionary that holds the tool call
    alone. A [JSONDecodeError] becomes the [ValueError] raised from it;
    the [RecursionError] of a text nested too deep and the [ValueError]
    of an integer of too many digits leave [from_tool_call] as they are,
    the [except] clause naming [JSONDecodeError] only; a value that is no
    object ends in a [TypeError]; on an object, whose keys are pairwise
    distinct, it ends as the validator ends on the object with the tool
    call under its key. All but the validator leave the store alone. *)
Theorem from_tool_call_outcomes `{Interpreter} `{BaseTool}
    (cls : ToolClass) (a : addr) (st : store) :
  match arguments_text (st a) with
  | None =>
      GroqTool.from_tool_call cls a st =
      model_validate cls (PDict [(TOOL_CALL, PRef a)]) st
  | Some raw =>
      match json_loads raw st with
      | (Return (PDict d), _) =>
          NoDup (Dict.keys d) /\
          GroqTool.from_tool_call cls a st =
          model_validate cls (PDict (Dict.set TOOL_CALL (PRef a) d)) st
      | (Return _, _) =>
          exists msg, GroqTool.from_tool_call cls a st = (Raise (TypeError msg), st)
      | (Raise (JSONDecodeError msg), _) =>
          GroqTool.from_tool_call cls a st =
          (Raise (ValueError (Some (JSONDecodeError msg))), st)
      | (Raise e, _) =>
          (e = RecursionError \/ e = ValueError None) /\
          GroqTool.from_tool_call cls a st = (Raise e, st)
      end
  end.
Proof.
  rewrite from_tool_call_eq.
  destruct (arguments_text (st a)) as [raw|]; [|reflexivity].
  destruct (json_loads_outcome raw st) as [[obj E] | [[msg E] | [E | E]]]; rewrite E.
  - destruct obj as [| b | z | l | s | items | d | r];
      try (match goal with
           | |- context [setitem ?o TOOL_CALL (PRef a)] =>
               let Hnd := fresh "Hnd" in
               assert (Hnd : forall d0, o <> PDict d0) by (intros d0; discriminate);
               destruct (setitem_non_dict o TOOL_CALL (PRef a) st Hnd) as [msg Hs];
               exists msg; unfold bind; rewrite Hs; reflexivity
           end).
    split; [apply (json_loads_dict_keys raw st st d E) | reflexivity].
  - reflexivity.
  - auto.
  - auto.
Qed.

(** The specified validator reads its input by key. *)
Lemma validate_fields_by_key (fs : Dict.t Base.model_field) (d d' : Dict.t pyobj) :
  same_mapping d d' -> Base.validate_fields fs d = Base.validate_fields fs d'.
Proof.
  intros Hs. induction fs as [|[k mf] fs IH]; simpl; [reflexivity|].
  rewrite IH, (Hs k). reflexivity.
Qed.

Lemma model_validate_by_key (cls : ToolClass) (d d' : Dict.t pyobj) (st : store) :
  same_mapping d d' ->
  Base.model_validate cls (PDict d) st = Base.model_validate cls (PDict d') st.
Proof.
  intros Hs. unfold Base.model_validate.
  rewrite (validate_fields_by_key _ d d' Hs). reflexivity.
Qed.

(** X3. What the argument text binds the key of the tool call to has no
    part in the outcome: two argument texts that are objects with the
    same value under every other key give the same outcome, wherever the
    key stands in either and whether it is there at all, given a
    validator that answers the same in every store and reads its input
    by key. *)
Theorem from_tool_call_ignores_given_tool_call `{Interpreter} `{BaseTool}
    (cls : ToolClass) (a : addr) (st1 st2 : store) (raw1 raw2 : string)
    (d1 d2 : Dict.t pyobj) :
  (forall obj, pure (model_validate cls obj)) ->
  (forall d d' st, same_mapping d d' ->
                   model_validate cls (PDict d) st = model_validate cls (PDict d') st) ->
  arguments_text (st1 a) = Some raw1 ->
  arguments_text (st2 a) = Some raw2 ->
  json_loads raw1 st1 = (Return (PDict d1), st1) ->
  json_loads raw2 st2 = (Return (PDict d2), st2) ->
  (forall k, k <> TOOL_CALL -> Dict.get k d1 = Dict.get k d2) ->
  fst (GroqTool.from_tool_call cls a st1) = fst (GroqTool.from_tool_call cls a st2).
Proof.
  intros Hp Hkey E1 E2 J1 J2 Hsame.
  rewrite !from_tool_call_eq, E1, E2, J1, J2. unfold bind. rewrite !setitem_dict.
  assert (S : same_mapping (Dict.set TOOL_CALL (PRef a) d1)
                           (Dict.set TOOL_CALL (PRef a) d2)).
  { intros k. destruct (String.eqb_spec k TOOL_CALL) as [->|Hne].
    - rewrite !DictFacts.get_set_same. reflexivity.
    - rewrite !DictFacts.get_set_other by congruence. apply Hsame, Hne. }
  rewrite (Hkey _ _ st1 S).
  destruct (Hp (PDict (Dict.set TOOL_CALL (PRef a) d2))) as [r Hr].
  rewrite !Hr. reflexivity.
Qed.

Lemma from_tool_call_ignores_given_tool_call_witness :
  fst (GroqTool.from_tool_call Lookup 0
         (store_of (call "lookup" (json_text "{'tool_call': 'forged', 'city': 'Tokyo'}")))) =
  fst (GroqTool.from_tool_call Lookup 0
         (store_of (call "lookup" (json_text "{'city': 'Tokyo'}")))).
Proof.
  apply (@from_tool_call_ignores_given_tool_call cpython base_tool Lookup 0
           (store_of (call "lookup" (json_text "{'tool_call': 'forged', 'city': 'Tokyo'}")))
           (store_of (call "lookup" (json_text "{'city': 'Tokyo'}")))
           (json_text "{'tool_call': 'forged', 'city': 'Tokyo'}")
           (json_text "{'city': 'Tokyo'}")
           [("tool_call", PStr "forged"); ("city", PStr "Tokyo")]
           [("city", PStr "Tokyo")]
           (BaseFacts.model_validate_pure Lookup)
           (model_validate_by_key Lookup)).
  - reflexivity.
  - reflexivity.
  - reflexivity.
  - reflexivity.
  - intros k Hk. cbn [Dict.get].
    destruct (String.eqb_spec k "tool_call"); [contradiction | reflexivity].
Defined.

Lemma skip_ws_blank (s : list ascii) :
  forallb Json.is_ws s = true -> Json.skip_ws s = [].
Proof.
  induction s as [|c r IH]; simpl; [reflexivity|].
  destruct (Json.is_ws c); simpl; [exact IH | discriminate].
Qed.

Lemma list_ascii_of_string_app (s1 s2 : string) :
  list_ascii_of_string (s1 ++ s2) = list_ascii_of_string s1 ++ list_ascii_of_string s2.
Proof. induction s1 as [|c s1 IH]; simpl; [reflexivity | rewrite IH; reflexivity]. Qed.

(** X4. Argument text that is not empty and holds nothing but JSON white
    space is a parse failure, unlike the empty text, which is not parsed:
    [from_tool_call] raises the [ValueError] wrapping the decoder's
    "Expecting value", whatever the class. *)
Theorem from_tool_call_blank_arguments `{Interpreter} `{BaseTool}
    (cls : ToolClass) (a : addr)
    (st : store) (function : ToolCall.Function) (raw : string) :
  ToolCall.function (st a) = Some function ->
  ToolCall.arguments function = Some raw ->
  raw <> "" ->
  forallb Json.is_ws (list_ascii_of_string raw) = true ->
  GroqTool.from_tool_call cls a st =
  (Raise (ValueError (Some (JSONDecodeError "Expecting value"))), st).
Proof.
  intros Hf Ha Hne Hws.
  rewrite (from_tool_call_text cls a st function raw Hf Ha Hne), json_loads_loads.
  unfold Json.loads.
  pose proof (JsonWhitespace.bom_leading (list_ascii_of_string raw) [] Hws) as B.
  rewrite app_nil_r in B. rewrite B, (skip_ws_blank _ Hws).
  destruct (list_ascii_of_string raw); reflexivity.
Qed.

Lemma from_tool_call_blank_arguments_witness :
  GroqTool.from_tool_call Lookup 0 (store_of (call "lookup" "  ")) =
  (Raise (ValueError (Some (JSONDecodeError "Expecting value"))),
   store_of (call "lookup" "  ")).
Proof.
  apply (from_tool_call_blank_arguments Lookup 0 (store_of (call "lookup" "  "))
           {| ToolCall.arguments := Some "  "; ToolCall.name := Some "lookup" |} "  ");
    [reflexivity | reflexivity | discriminate | reflexivity].
Defined.



(** X6. White space around argument text that is well formed JSON
    changes nothing: with a validator that answers the same in every
    store, a tool call whose argument text is such a text between runs
    of JSON white space gives the outcome of the tool call with the
    text itself. *)
Theorem from_tool_call_surrounding_whitespace `{Interpreter} `{BaseTool}
    (cls : ToolClass)
    (a : addr) (st1 st2 : store) (f1 f2 : ToolCall.Function)
    (before raw after : string) (obj : pyobj) :
  (forall obj, pure (model_validate cls obj)) ->
  ToolCall.function (st1 a) = Some f1 ->
  ToolCall.arguments f1 = Some raw ->
  json_loads raw st1 = (Return obj, st1) ->
  ToolCall.function (st2 a) = Some f2 ->
  ToolCall.arguments f2 = Some (before ++ raw ++ after)%string ->
  forallb Json.is_ws (list_ascii_of_string before) = true ->
  forallb Json.is_ws (list_ascii_of_string after) = true ->
  fst (GroqTool.from_tool_call cls a st1) = fst (GroqTool.from_tool_call cls a st2).
Proof.
  intros Hp Hf1 Ha1 Hj Hf2 Ha2 Hb Hafter.
  assert (Hne : raw <> "") by (intros ->; discriminate).
  assert (Hd : Json.loads error_frames int_max_str_digits recursion_room
                 (list_ascii_of_string raw) = Json.Scanned obj).
  { rewrite json_loads_loads in Hj.
    destruct (Json.loads _ _ _ (list_ascii_of_string raw)); congruence. }
  apply (from_tool_call_by_loads cls a st1 st2 raw (before ++ raw ++ after)%string Hp).
  - apply arguments_text_spec. eauto.
  - apply arguments_text_spec. exists f2. repeat split; auto.
    destruct before; simpl; [|discriminate].
    destruct raw; simpl; [contradiction | discriminate].
  - rewrite !list_ascii_of_string_app.
    pose proof (JsonWhitespace.loads_trailing _ _ _ _ _ obj Hafter Hd) as Ht.
    rewrite JsonWhitespace.loads_leading; [congruence | exact Hb |].
    unfold Json.loads in Ht.
    destruct (Json.starts_with_bom _); [discriminate | reflexivity].
Qed.

Lemma from_tool_call_surrounding_whitespace_witness :
  fst (GroqTool.from_tool_call Lookup 0
         (store_of (call "lookup" (json_text "{'city': 'Tokyo'}")))) =
  fst (GroqTool.from_tool_call Lookup 0
         (store_of (call "lookup" ("  " ++ json_text "{'city': 'Tokyo'}" ++ " ")%string))).
Proof.
  apply (@from_tool_call_surrounding_whitespace cpython base_tool Lookup 0 _ _
           {| ToolCall.arguments := Some (json_text "{'city': 'Tokyo'}");
              ToolCall.name := Some "lookup" |}
           {| ToolCall.arguments :=
                Some ("  " ++ json_text "{'city': 'Tokyo'}" ++ " ")%string;
              ToolCall.name := Some "lookup" |}
           "  " (json_text "{'city': 'Tokyo'}") " "
           (PDict [("city", PStr "Tokyo")])
           (BaseFacts.model_validate_pure Lookup));
    reflexivity.
Defined.
